(** * Listening-history analytics pipeline: a shallow embedding

    The development follows [pages/upload.py] (ingestion and feature
    synthesis) and [pages/wrapped.py] (aggregation and profile
    classification).

    Numbers.  Python integers are [Z].  Every float64 quantity of the source
    is an exact rational ([Q]): IEEE rounding is not modelled, only the
    special values a float division can produce ([npfloat] below).  Equality
    of computed rationals is [Qeq] ([==]) where the order of additions could
    matter and Leibniz equality where the claim is about reproducibility. *)

From Stdlib Require Import ZArith QArith List Sorted Permutation Ascii String Bool Lia Lqa.
Import ListNotations.

Local Open Scope Z_scope.

(** ** Python values found in the [spotify_track_uri] column *)

(** A Python [str] is a sequence of code points. *)
Definition pystr := list Z.

Inductive pyval : Type :=
| PyNone
| PyStr (s : pystr)
| PyInt (n : Z).

(** [bool(v)] *)
Definition truthy (v : pyval) : bool :=
  match v with
  | PyNone => false
  | PyStr s => match s with [] => false | _ :: _ => true end
  | PyInt n => negb (n =? 0)
  end.

(** [isinstance(v, str)] *)
Definition isinstance_str (v : pyval) : bool :=
  match v with PyStr _ => true | _ => false end.

Fixpoint pystr_eqb (a b : pystr) : bool :=
  match a, b with
  | [], [] => true
  | x :: a', y :: b' => (x =? y) && pystr_eqb a' b'
  | _, _ => false
  end.

Definition pyval_eqb (a b : pyval) : bool :=
  match a, b with
  | PyNone, PyNone => true
  | PyStr s, PyStr t => pystr_eqb s t
  | PyInt n, PyInt m => n =? m
  | _, _ => false
  end.

(** ** [uri.encode()]: UTF-8, strict error handler *)

(** One code point.  A surrogate (U+D800..U+DFFF) raises [UnicodeEncodeError],
    rendered as [None]. *)
Definition utf8_encode_char (c : Z) : option (list Z) :=
  if c <? 0x80 then Some [c]
  else if c <? 0x800 then
    Some [Z.lor 0xC0 (Z.shiftr c 6); Z.lor 0x80 (Z.land c 0x3F)]
  else if (0xD800 <=? c) && (c <=? 0xDFFF) then None
  else if c <? 0x10000 then
    Some [Z.lor 0xE0 (Z.shiftr c 12);
          Z.lor 0x80 (Z.land (Z.shiftr c 6) 0x3F);
          Z.lor 0x80 (Z.land c 0x3F)]
  else
    Some [Z.lor 0xF0 (Z.shiftr c 18);
          Z.lor 0x80 (Z.land (Z.shiftr c 12) 0x3F);
          Z.lor 0x80 (Z.land (Z.shiftr c 6) 0x3F);
          Z.lor 0x80 (Z.land c 0x3F)].

Fixpoint str_encode (s : pystr) : option (list Z) :=
  match s with
  | [] => Some []
  | c :: r =>
      match utf8_encode_char c, str_encode r with
      | Some b, Some bs => Some (b ++ bs)
      | _, _ => None
      end
  end.

(** [int.from_bytes(bs, 'big')] *)
Definition int_from_bytes_big (bs : list Z) : Z :=
  fold_left (fun acc b => acc * 256 + b) bs 0.

(** [int.from_bytes(uri.encode(), 'big') % (2**32)] *)
Definition seed_of_bytes (bs : list Z) : Z := int_from_bytes_big bs mod 2 ^ 32.

(** A code point that [encode] accepts: a Unicode scalar value. *)
Definition scalar_value (c : Z) : Prop :=
  0 <= c <= 0x10FFFF /\ ~ (0xD800 <= c <= 0xDFFF).

(** ** The feature record built for one track *)

Record feature : Type := mkFeature {
  f_uri : pystr;
  danceability : Q;
  energy : Q;
  valence : Q;
  tempo : Q;
  speechiness : Q;
  acousticness : Q;
  instrumentalness : Q
}.

(** The closed ranges of the six profile dimensions. *)
Definition in_documented_ranges (f : feature) : Prop :=
  (0.2 <= danceability f <= 0.9)%Q /\
  (0.1 <= energy f <= 1.0)%Q /\
  (0.1 <= valence f <= 0.9)%Q /\
  (0.02 <= speechiness f <= 0.2)%Q /\
  (0.0 <= acousticness f <= 1.0)%Q /\
  (0.0 <= instrumentalness f <= 0.8)%Q.

Section FeatureSynthesis.

(** *** The generator behind [np.random]

    [np.random.seed] and [np.random.uniform] act on numpy's process-wide
    generator.  Its state is [rng]; [np_seed s] is the state installed by
    [np.random.seed(s)] for an accepted [s] (the previous state is
    discarded), and [random_sample] is one draw of the underlying double in
    the half-open unit interval. *)
Variable rng : Type.
Variable np_seed : Z -> rng.
Variable random_sample : rng -> Q * rng.
Hypothesis random_sample_unit :
  forall g, (0 <= fst (random_sample g) /\ fst (random_sample g) < 1)%Q.

(** [np.random.seed(seed)] raises [ValueError] outside [0, 2**32 - 1]. *)
Definition np_random_seed (seed : Z) : option rng :=
  if (0 <=? seed) && (seed <=? 2 ^ 32 - 1) then Some (np_seed seed) else None.

(** [np.random.uniform(low, high)]: [low + (high - low) * random_sample()] *)
Definition np_random_uniform (low high : Q) (g : rng) : Q * rng :=
  let (u, g') := random_sample g in ((low + (high - low) * u)%Q, g').

(** The dictionary display of lines 75-84: its values are evaluated top to
    bottom, so the seven draws happen in this order. *)
Definition draw_feature (uri : pystr) (g0 : rng) : feature * rng :=
  let (d, g1) := np_random_uniform 0.2 0.9 g0 in
  let (e, g2) := np_random_uniform 0.1 1.0 g1 in
  let (v, g3) := np_random_uniform 0.1 0.9 g2 in
  let (t, g4) := np_random_uniform 70 180 g3 in
  let (s, g5) := np_random_uniform 0.02 0.2 g4 in
  let (a, g6) := np_random_uniform 0.0 1.0 g5 in
  let (i, g7) := np_random_uniform 0.0 0.8 g6 in
  (mkFeature uri d e v t s a i, g7).

(** What one iteration of the loop does to the part of the state the claims
    are about: the global generator, the [audio_features] list and the
    warnings issued by the [except] branch (the progress bar is
    presentation and is left out). *)
Record loop_state : Type := mkLoop {
  np_state : rng;
  audio_features : list feature;
  warned : list pyval
}.

(** Lines 67-94 for one [uri]. *)
Definition loop_body (st : loop_state) (uri : pyval) : loop_state :=
  if truthy uri && isinstance_str uri then
    match uri with
    | PyStr s =>
        match str_encode s with
        | None => mkLoop (np_state st) (audio_features st) (warned st ++ [uri])
        | Some bs =>
            match np_random_seed (seed_of_bytes bs) with
            | None => mkLoop (np_state st) (audio_features st) (warned st ++ [uri])
            | Some g =>
                let (f, g') := draw_feature s g in
                mkLoop g' (audio_features st ++ [f]) (warned st)
            end
        end
    | _ => st
    end
  else st.

(** Lines 64-94: [for i, uri in enumerate(unique_tracks)]. *)
Definition synthesis_loop (g0 : rng) (unique_tracks : list pyval) : loop_state :=
  fold_left loop_body unique_tracks (mkLoop g0 [] []).

(** The vector of one track taken alone: the function of the identifier
    that the loop is claimed to compute for every element of a batch. *)
Definition synthesize (uri : pyval) : option feature :=
  match uri with
  | PyStr (c :: r) =>
      match str_encode (c :: r) with
      | None => None
      | Some bs =>
          match np_random_seed (seed_of_bytes bs) with
          | None => None
          | Some g => Some (fst (draw_feature (c :: r) g))
          end
      end
  | _ => None
  end.

(** The rows of [features_df] for a batch, as the per-track function gives
    them. *)
Fixpoint synthesize_all (us : list pyval) : list feature :=
  match us with
  | [] => []
  | u :: r =>
      match synthesize u with
      | Some f => f :: synthesize_all r
      | None => synthesize_all r
      end
  end.

(** The first [n] values of [random_sample] from state [g]. *)
Fixpoint unit_draws (n : nat) (g : rng) : list Q :=
  match n with
  | O => []
  | S n' => let (u, g') := random_sample g in u :: unit_draws n' g'
  end.

(** A synthesizer that draws only the six profile dimensions, in the same
    order and with the same ranges, and no tempo: the reading of "six
    dimensions in a fixed order" that the source is compared with. *)
Definition draw_six (g0 : rng) : list Q :=
  let (d, g1) := np_random_uniform 0.2 0.9 g0 in
  let (e, g2) := np_random_uniform 0.1 1.0 g1 in
  let (v, g3) := np_random_uniform 0.1 0.9 g2 in
  let (s, g4) := np_random_uniform 0.02 0.2 g3 in
  let (a, g5) := np_random_uniform 0.0 1.0 g4 in
  let (i, g6) := np_random_uniform 0.0 0.8 g5 in
  [d; e; v; s; a; i].

(** The columns that line 103 takes from [features_df] into the merge. *)
Definition merged_columns (f : feature) : list (string * Q) :=
  [("danceability"%string, danceability f); ("energy"%string, energy f);
   ("valence"%string, valence f); ("tempo"%string, tempo f);
   ("speechiness"%string, speechiness f); ("acousticness"%string, acousticness f);
   ("instrumentalness"%string, instrumentalness f)].

(** The row of [features_df] that carries track [s], if any. *)
Definition features_row (s : pystr) (features_df : list feature) : option feature :=
  find (fun f => pystr_eqb (f_uri f) s) features_df.

End FeatureSynthesis.

Arguments np_random_seed {rng} np_seed seed.
Arguments np_random_uniform {rng} random_sample low high g.
Arguments draw_feature {rng} random_sample uri g0.
Arguments mkLoop {rng} np_state audio_features warned.
Arguments np_state {rng} l.
Arguments audio_features {rng} l.
Arguments warned {rng} l.
Arguments loop_body {rng} np_seed random_sample st uri.
Arguments synthesis_loop {rng} np_seed random_sample g0 unique_tracks.
Arguments synthesize {rng} np_seed random_sample uri.
Arguments synthesize_all {rng} np_seed random_sample us.
Arguments unit_draws {rng} random_sample n g.
Arguments draw_six {rng} random_sample g0.

(** ** float64 results that need not be finite *)

(** A finite value is an exact rational; a float64 division by zero gives an
    infinity or NaN (numpy warns and does not raise). *)
Inductive npfloat : Type :=
| Fin (q : Q)
| PInf
| NInf
| NaN.

Definition Qlt_bool (a b : Q) : bool := negb (Qle_bool b a).

(** [a / b] on float64 scalars *)
Definition np_truediv (a b : Q) : npfloat :=
  if Qeq_bool b 0 then
    (if Qeq_bool a 0 then NaN else if Qlt_bool 0 a then PInf else NInf)
  else Fin (a / b).

(** [x * c] for a finite [c] *)
Definition np_mul (x : npfloat) (c : Q) : npfloat :=
  match x with
  | Fin q => Fin (q * c)
  | NaN => NaN
  | PInf => if Qeq_bool c 0 then NaN else if Qlt_bool 0 c then PInf else NInf
  | NInf => if Qeq_bool c 0 then NaN else if Qlt_bool 0 c then NInf else PInf
  end.

(** [x > c]: every comparison with NaN is false *)
Definition np_gt (x : npfloat) (c : Q) : bool :=
  match x with
  | Fin q => Qlt_bool c q
  | PInf => true
  | NInf => false
  | NaN => false
  end.

(** [x < c] *)
Definition np_lt (x : npfloat) (c : Q) : bool :=
  match x with
  | Fin q => Qlt_bool q c
  | PInf => false
  | NInf => true
  | NaN => false
  end.

Definition Qsum (l : list Q) : Q := fold_right Qplus 0%Q l.

(** ** The canonical table *)

(** One row of the DataFrame returned by [process_files], restricted to the
    columns the analysis reads.  [ts] is the parsed timestamp in seconds of
    its own wall clock since the epoch. *)
Record play_event : Type := mkEvent {
  ts : Z;
  ms_played : Z;
  minutes_played : Q;
  spotify_track_uri : pyval
}.

(** A record of an export file, before normalisation. *)
Record raw_record : Type := mkRaw {
  r_ts : string;
  r_ms_played : Z;
  r_spotify_track_uri : pyval
}.

(** The exceptions that leave [process_files].  [ValueError] is the one of
    [pd.to_datetime]: it carries the offending text and its row position,
    nothing about files.  [UnicodeDecodeError] and [RecursionError] come out
    of [json.load], [TypeError] out of [all_data.extend]; [FrameError]
    stands for what lines 45-48 raise when [all_data] holds an item that is
    not a JSON object: [pd.DataFrame] raises on a list that mixes objects
    with other items, and a frame built from other items only has integer
    column labels, so that [df['ts']] raises [KeyError]. *)
Inductive exn : Type :=
| ValueError (value : string) (position : nat)
| UnicodeDecodeError
| RecursionError
| TypeError
| FrameError.

(** What the [try] block of lines 34-36 meets on an uploaded file.
    [json.load(file)] raises [json.JSONDecodeError], the one exception line
    37 catches; or it raises another exception ([UnicodeDecodeError] on
    bytes that are not UTF-8, [RecursionError] on too deep a nesting); or it
    returns a value, handed to [all_data.extend].
    - [Loaded data]: the value iterates to records only, which [extend]
      appends: an array of records (also an empty array, string or object,
      with nothing to append).
    - [LoadedScalar]: a number, [true], [false] or [null]; [extend] cannot
      iterate it and raises [TypeError], inside the [try].
    - [LoadedWithStrays data]: the value iterates to at least one item that
      is not a JSON object (a string gives its characters, an object its
      keys, an array its elements); [extend] appends them all, [data] being
      the records among them. *)
Inductive json_load_result : Type :=
| JSONDecodeError
| LoadRaised (e : exn)
| Loaded (data : list raw_record)
| LoadedScalar
| LoadedWithStrays (data : list raw_record).

Record uploaded_file : Type := mkFile {
  name : string;
  json_load : json_load_result
}.

(** The file holds an array of records. *)
Definition loads_records (f : uploaded_file) : Prop :=
  exists data, json_load f = Loaded data.

(** The file does not stop the loop of lines 33-39. *)
Definition loop_continues (f : uploaded_file) : Prop :=
  exists data, json_load f = Loaded data \/ json_load f = LoadedWithStrays data.

(** How a call of [process_files] ends: it returns ([None] or a table) after
    showing the [st.error] messages, or an exception propagates. *)
Inductive outcome (A : Type) : Type :=
| Returned (value : option A) (st_error : list string)
| Raised (e : exn).
Arguments Returned {A} value st_error.
Arguments Raised {A} e.

(** How the loop over the files stops early: with the [st.error] and
    [return None] of lines 38-39, which name the file, or with an exception
    that line 37 does not catch. *)
Inductive stop : Type :=
| ReportedError (file_name : string)
| Uncaught (e : exn).

(** Lines 33-39: the loop over the files.  [all_data] is the records
    gathered so far; the items that are not records are accounted for by
    [holds_strays]. *)
Fixpoint load_files (uploaded_files : list uploaded_file) (all_data : list raw_record)
  : list raw_record + stop :=
  match uploaded_files with
  | [] => inl all_data
  | file :: rest =>
      match json_load file with
      | JSONDecodeError => inr (ReportedError (name file))
      | LoadRaised e => inr (Uncaught e)
      | LoadedScalar => inr (Uncaught TypeError)
      | Loaded data => load_files rest (all_data ++ data)
      | LoadedWithStrays data => load_files rest (all_data ++ data)
      end
  end.

(** Some file put an item that is not a record into [all_data]. *)
Definition holds_strays (uploaded_files : list uploaded_file) : bool :=
  existsb (fun f => match json_load f with LoadedWithStrays _ => true | _ => false end)
          uploaded_files.

Definition error_reading (file_name : string) : string :=
  ("Error reading " ++ file_name ++ ". Please make sure it's a valid JSON file.")%string.

Definition no_valid_data : string := "No valid data found in uploaded files."%string.

(** [df['ms_played'] / (1000 * 60)] *)
Definition minutes_of_ms (ms : Z) : Q := (inject_Z ms / inject_Z (1000 * 60))%Q.

Section Ingestion.

(** The scalar timestamp parser behind [pd.to_datetime]: [None] when the
    text cannot be parsed. *)
Variable parse_datetime : string -> option Z.

(** [pd.to_datetime(column)] with the default [errors='raise']: the first
    text that does not parse aborts the conversion of the whole column. *)
Fixpoint to_datetime (position : nat) (column : list string) : list Z + exn :=
  match column with
  | [] => inl []
  | s :: rest =>
      match parse_datetime s with
      | None => inr (ValueError s position)
      | Some t =>
          match to_datetime (S position) rest with
          | inl tss => inl (t :: tss)
          | inr e => inr e
          end
      end
  end.

(** Lines 45-49: the frame and its two derived columns. *)
Definition build_frame (all_data : list raw_record) (tss : list Z) : list play_event :=
  map (fun p : raw_record * Z =>
         mkEvent (snd p) (r_ms_played (fst p)) (minutes_of_ms (r_ms_played (fst p)))
                 (r_spotify_track_uri (fst p)))
      (combine all_data tss).

(** Lines 29-51.  With a stray item [all_data] is not empty, so line 41
    lets it through and the frame of line 45, or its [ts] column on line
    48, raises. *)
Definition process_files (uploaded_files : list uploaded_file) : outcome (list play_event) :=
  match load_files uploaded_files [] with
  | inr (ReportedError file_name) => Returned None [error_reading file_name]
  | inr (Uncaught e) => Raised e
  | inl all_data =>
      if holds_strays uploaded_files then Raised FrameError
      else
        match all_data with
        | [] => Returned None [no_valid_data]
        | _ :: _ =>
            match to_datetime 0 (map r_ts all_data) with
            | inr e => Raised e
            | inl tss => Returned (Some (build_frame all_data tss)) []
            end
        end
  end.

End Ingestion.

(** The source a failure report identifies, when it identifies one: only the
    [st.error] of line 38 carries a file name. *)
Definition reported_source {A : Type} (files : list uploaded_file) (o : outcome A)
  : option string :=
  match o with
  | Returned None [msg] =>
      match find (fun f => String.eqb msg (error_reading (name f))) files with
      | Some f => Some (name f)
      | None => None
      end
  | _ => None
  end.

Definition returned_table {A : Type} (o : outcome A) : option A :=
  match o with
  | Returned v _ => v
  | Raised _ => None
  end.

(** ** Aggregation *)

(** [df['ts'].dt.hour] *)
Definition hour_of (t : Z) : Z := (t / 3600) mod 24.

(** A Series with an integer index: its (label, value) pairs in index order. *)
Definition series := list (Z * Q).

(** One row entering a sum-aggregation whose group keys are kept sorted. *)
Fixpoint group_add (k : Z) (m : Q) (acc : series) : series :=
  match acc with
  | [] => [(k, m)]
  | (k', v) :: rest =>
      if k <? k' then (k, m) :: acc
      else if k =? k' then (k', (v + m)%Q) :: rest
      else (k', v) :: group_add k m rest
  end.

(** [df.groupby('hour')['minutes_played'].sum()]: one entry per hour that
    occurs in the table, in increasing hour order. *)
Definition groupby_hour_sum (df : list play_event) : series :=
  fold_left (fun acc e => group_add (hour_of (ts e)) (minutes_played e) acc) df [].

(** [left.merge(right, how='left')] on a key: every left row, in order, once
    per matching right row, and once with nulls when nothing matches. *)
Definition merge_left {A B : Type} (key_match : A -> B -> bool)
  (left : list A) (right : list B) : list (A * option B) :=
  flat_map (fun a =>
              match filter (key_match a) right with
              | [] => [(a, None)]
              | ms => map (fun b => (a, Some b)) ms
              end) left.

(** [range(24)] *)
Definition range24 : list Z := map Z.of_nat (seq 0 24).

(** Lines 131-134 of [create_listening_clock]: the (hour, minutes_played)
    rows of [hourly_stats] after the merge with [all_hours] and [fillna(0)]. *)
Definition hourly_profile (df : list play_event) : series :=
  map (fun r : Z * option (Z * Q) =>
         (fst r, match snd r with Some kv => snd kv | None => 0%Q end))
      (merge_left (fun h (kv : Z * Q) => h =? fst kv) range24 (groupby_hour_sum df)).

(** [s.sum()] *)
Definition series_sum (s : series) : Q := Qsum (map snd s).

(** [s[start:stop]] with non-negative integer bounds.  On a Series, an
    integer slice inside [[]] selects by position, whatever the index holds;
    [hourly_stats] has one position per hour that occurs. *)
Definition series_slice (start stop : nat) (s : series) : series :=
  firstn (stop - start) (skipn start s).

(** [s[start:]] and [s[:stop]] *)
Definition series_from (start : nat) (s : series) : series := skipn start s.
Definition series_upto (stop : nat) (s : series) : series := firstn stop s.

(** Lines 308-313. *)
Definition time_blocks : list (string * (nat * nat)) :=
  [("early_morning"%string, (5, 8)%nat);
   ("work_hours"%string, (9, 17)%nat);
   ("evening"%string, (17, 22)%nat);
   ("late_night"%string, (22, 5)%nat)].

(** Lines 319-322. *)
Definition block_minutes (hourly_stats : series) (start stop : nat) : Q :=
  if (start <? stop)%nat then series_sum (series_slice start stop hourly_stats)
  else (series_sum (series_from start hourly_stats)
        + series_sum (series_upto stop hourly_stats))%Q.

(** Lines 305-323 of [analyze_listening_patterns]: the [block_percentages]
    dictionary, in insertion order. *)
Definition block_percentages (df : list play_event) : list (string * npfloat) :=
  let hourly_stats := groupby_hour_sum df in
  let total_minutes := series_sum hourly_stats in
  map (fun b : string * (nat * nat) =>
         (fst b,
          np_mul (np_truediv (block_minutes hourly_stats (fst (snd b)) (snd (snd b)))
                             total_minutes) 100))
      time_blocks.

(** [df['minutes_played'].sum()] *)
Definition total_minutes_played (df : list play_event) : Q :=
  Qsum (map minutes_played df).

(** Minutes of the events of hour [h]. *)
Definition minutes_in_hour (h : Z) (df : list play_event) : Q :=
  Qsum (map minutes_played (filter (fun e => hour_of (ts e) =? h) df)).

(** ** Enrichment: [add_audio_features] *)

(** [df['spotify_track_uri'].unique()]: the distinct values in order of first
    appearance. *)
Fixpoint unique_from (seen : list pyval) (l : list pyval) : list pyval :=
  match l with
  | [] => []
  | x :: r =>
      if existsb (pyval_eqb x) seen then unique_from seen r
      else x :: unique_from (x :: seen) r
  end.

Definition unique (l : list pyval) : list pyval := unique_from [] l.

(** A row of the enriched table: the event and, when the merge found its
    track in [features_df], the feature columns (null otherwise). *)
Definition enriched_row : Type := play_event * option feature.

Section Enrichment.

Variable rng : Type.
Variable np_seed : Z -> rng.
Variable random_sample : rng -> Q * rng.

(** Lines 58-111.  The result is the returned frame and the value of
    [st.session_state['audio_features_added']] afterwards; when no feature
    was generated the frame is returned as it came (all feature cells
    null here) and the flag stays unset. *)
Definition add_audio_features (g0 : rng) (df : list play_event)
  : list enriched_row * bool :=
  let unique_tracks := unique (map spotify_track_uri df) in
  let features_df :=
    audio_features (synthesis_loop np_seed random_sample g0 unique_tracks) in
  match features_df with
  | [] => (map (fun e => (e, None)) df, false)
  | _ :: _ =>
      (merge_left (fun e f => pyval_eqb (spotify_track_uri e) (PyStr (f_uri f)))
                  df features_df, true)
  end.

End Enrichment.

Arguments add_audio_features {rng} np_seed random_sample g0 df.

(** ** Profile classification: [analyze_music_profile] *)

(** [df[col].mean()]: nulls are skipped; the mean of no value is NaN. *)
Definition column_mean (col : feature -> Q) (df : list enriched_row) : npfloat :=
  let present := flat_map (fun r : enriched_row =>
                             match snd r with Some f => [col f] | None => [] end) df in
  np_truediv (Qsum present) (inject_Z (Z.of_nat (List.length present))).

(** The [features] dictionary of lines 357-364. *)
Record averaged_features : Type := mkAveraged {
  avg_danceability : npfloat;
  avg_energy : npfloat;
  avg_valence : npfloat;
  avg_speechiness : npfloat;
  avg_acousticness : npfloat;
  avg_instrumentalness : npfloat
}.

Definition average_features (df : list enriched_row) : averaged_features :=
  mkAveraged (column_mean danceability df) (column_mean energy df)
             (column_mean valence df) (column_mean speechiness df)
             (column_mean acousticness df) (column_mean instrumentalness df).

Inductive personality : Type :=
| PartyStarter
| SoulSearcher
| MoodLifter
| LyricLover
| EclecticExplorer.

(** The label texts of lines 367-375, without their trailing emoji. *)
Definition personality_text (p : personality) : string :=
  match p with
  | PartyStarter => "Party Starter"
  | SoulSearcher => "Soul Searcher"
  | MoodLifter => "Mood Lifter"
  | LyricLover => "Lyric Lover"
  | EclecticExplorer => "Eclectic Explorer"
  end.

(** Lines 366-375. *)
Definition classify (features : averaged_features) : personality :=
  if np_gt (avg_energy features) 0.7 && np_gt (avg_danceability features) 0.6 then
    PartyStarter
  else if np_gt (avg_acousticness features) 0.6
          && np_gt (avg_instrumentalness features) 0.4 then
    SoulSearcher
  else if np_gt (avg_valence features) 0.6 && np_gt (avg_energy features) 0.5 then
    MoodLifter
  else if np_gt (avg_speechiness features) 0.4 then
    LyricLover
  else
    EclecticExplorer.

(** Lines 356-376: the label and the averaged dimensions it was chosen from. *)
Definition analyze_music_profile (df : list enriched_row)
  : personality * averaged_features :=
  let features := average_features df in (classify features, features).

(** The decision procedure as the specification words it: an ordered list of
    guarded labels, the first guard that holds wins, and a fallback. *)
Definition profile_rules : list ((averaged_features -> bool) * personality) :=
  [ (fun f => np_gt (avg_energy f) 0.7 && np_gt (avg_danceability f) 0.6, PartyStarter);
    (fun f => np_gt (avg_acousticness f) 0.6 && np_gt (avg_instrumentalness f) 0.4,
     SoulSearcher);
    (fun f => np_gt (avg_valence f) 0.6 && np_gt (avg_energy f) 0.5, MoodLifter);
    (fun f => np_gt (avg_speechiness f) 0.4, LyricLover) ].

Fixpoint first_match (rules : list ((averaged_features -> bool) * personality))
  (fallback : personality) (f : averaged_features) : personality :=
  match rules with
  | [] => fallback
  | (guard, label) :: rest => if guard f then label else first_match rest fallback f
  end.

(** The mean over the distinct tracks of a table instead of over its rows:
    what [analyze_music_profile] would use if it averaged [features_df]. *)
Definition column_mean_per_track (col : feature -> Q) (features_df : list feature)
  : npfloat :=
  np_truediv (Qsum (map col features_df)) (inject_Z (Z.of_nat (List.length features_df))).

(** ** numpy's legacy generator: MT19937

    The instance of the generator interface that [np.random] provides: the
    state is the 624-word key and a position; words are [uint32_t], so every
    assignment is reduced modulo 2^32. *)
Module MT19937.

Definition u32 (x : Z) : Z := x mod 2 ^ 32.

Definition RK_STATE_LEN : nat := 624.
Definition M : nat := 397.
Definition MATRIX_A : Z := 0x9908b0df.
Definition UPPER_MASK : Z := 0x80000000.
Definition LOWER_MASK : Z := 0x7fffffff.

Record state : Type := mkState {
  key : list Z;
  pos : nat
}.

(** [mt19937_seed]: the Knuth recurrence fills the key, [pos] is set to
    the key length so that the first draw regenerates. *)
Fixpoint seed_fill (n : nat) (position : Z) (seed : Z) : list Z :=
  match n with
  | O => []
  | S n' =>
      seed :: seed_fill n' (position + 1)
                (u32 (1812433253 * Z.lxor seed (Z.shiftr seed 30) + position + 1))
  end.

Definition mt19937_seed (seed : Z) : state :=
  mkState (seed_fill RK_STATE_LEN 0 (u32 seed)) RK_STATE_LEN.

Fixpoint set_nth (i : nat) (v : Z) (l : list Z) : list Z :=
  match l, i with
  | [], _ => []
  | _ :: r, O => v :: r
  | x :: r, S i' => x :: set_nth i' v r
  end.

(** One assignment [key[i] = key[i + M] ^ (y >> 1) ^ (-(y & 1) & MATRIX_A)]
    of [mt19937_gen]; the three loops of the C code differ only in how the
    two other indices wrap around the key. *)
Definition gen_step (k : list Z) (i : nat) : list Z :=
  let y := Z.lor (Z.land (nth i k 0) UPPER_MASK)
                 (Z.land (nth ((i + 1) mod RK_STATE_LEN) k 0) LOWER_MASK) in
  set_nth i
    (u32 (Z.lxor (Z.lxor (nth ((i + M) mod RK_STATE_LEN) k 0) (Z.shiftr y 1))
                 (Z.land (u32 (- Z.land y 1)) MATRIX_A)))
    k.

Definition mt19937_gen (k : list Z) : list Z :=
  fold_left gen_step (seq 0 RK_STATE_LEN) k.

Definition temper (y0 : Z) : Z :=
  let y1 := Z.lxor y0 (Z.shiftr y0 11) in
  let y2 := Z.lxor y1 (Z.land (u32 (Z.shiftl y1 7)) 0x9d2c5680) in
  let y3 := Z.lxor y2 (Z.land (u32 (Z.shiftl y2 15)) 0xefc60000) in
  u32 (Z.lxor y3 (Z.shiftr y3 18)).

(** [mt19937_next] *)
Definition mt19937_next (s : state) : Z * state :=
  let s' := if Nat.eqb (pos s) RK_STATE_LEN then mkState (mt19937_gen (key s)) 0 else s in
  (temper (u32 (nth (pos s') (key s') 0)), mkState (key s') (S (pos s'))).

(** [mt19937_next_double]: 53 random bits over 2^53. *)
Definition next_double (s : state) : Q * state :=
  let (x, s1) := mt19937_next s in
  let (y, s2) := mt19937_next s1 in
  let a := Z.shiftr x 5 in
  let b := Z.shiftr y 6 in
  (Qmake (a * 67108864 + b) 9007199254740992, s2).

End MT19937.

(** ** The timestamp format of the export files

    [pd.to_datetime] accepts far more than this; the parser below reads the
    one format the streaming-history files use, [YYYY-MM-DDTHH:MM:SSZ], and
    serves as the instance on which the generic statements are run. *)
Module ExportTimestamp.

Definition digit (c : Ascii.ascii) : option Z :=
  let n := Z.of_nat (Ascii.nat_of_ascii c) in
  if (48 <=? n) && (n <=? 57) then Some (n - 48) else None.

(** Exactly [n] digits, then the rest of the text. *)
Fixpoint number (n : nat) (acc : Z) (s : string) : option (Z * string) :=
  match n with
  | O => Some (acc, s)
  | S n' =>
      match s with
      | String c r =>
          match digit c with
          | Some d => number n' (acc * 10 + d) r
          | None => None
          end
      | EmptyString => None
      end
  end.

Definition literal (c : Ascii.ascii) (s : string) : option string :=
  match s with
  | String c' r => if Ascii.eqb c c' then Some r else None
  | EmptyString => None
  end.

(** Days since 1970-01-01 of a proleptic Gregorian date. *)
Definition days_from_civil (y m d : Z) : Z :=
  let y' := if m <=? 2 then y - 1 else y in
  let era := y' / 400 in
  let yoe := y' - era * 400 in
  let doy := (153 * (if 2 <? m then m - 3 else m + 9) + 2) / 5 + d - 1 in
  let doe := yoe * 365 + yoe / 4 - yoe / 100 + doy in
  era * 146097 + doe - 719468.

Definition parse (s : string) : option Z :=
  match number 4 0 s with
  | Some (y, s) =>
  match literal "-"%char s with
  | Some s =>
  match number 2 0 s with
  | Some (m, s) =>
  match literal "-"%char s with
  | Some s =>
  match number 2 0 s with
  | Some (d, s) =>
  match literal "T"%char s with
  | Some s =>
  match number 2 0 s with
  | Some (hh, s) =>
  match literal ":"%char s with
  | Some s =>
  match number 2 0 s with
  | Some (mm, s) =>
  match literal ":"%char s with
  | Some s =>
  match number 2 0 s with
  | Some (ss, s) =>
  match literal "Z"%char s with
  | Some EmptyString =>
      if (1 <=? m) && (m <=? 12) && (1 <=? d) && (d <=? 31)
         && (hh <? 24) && (mm <? 60) && (ss <? 60)
      then Some (days_from_civil y m d * 86400 + hh * 3600 + mm * 60 + ss)
      else None
  | _ => None end
  | None => None end
  | None => None end
  | None => None end
  | None => None end
  | None => None end
  | None => None end
  | None => None end
  | None => None end
  | None => None end
  | None => None end
  | None => None end.

End ExportTimestamp.

(** ASCII text as a Python [str]. *)
Fixpoint pystr_of_string (s : string) : pystr :=
  match s with
  | EmptyString => []
  | String c r => Z.of_nat (Ascii.nat_of_ascii c) :: pystr_of_string r
  end.

(** The minutes a series holds under label [h]. *)
Definition held_at (h : Z) (s : series) : Q :=
  Qsum (map snd (filter (fun kv : Z * Q => h =? fst kv) s)).

(** One cell of the frame built on lines 133-134. *)
Definition filled_cell (df : list play_event) (h : Z) : Z * Q :=
  (h, match filter (fun kv : Z * Q => h =? fst kv) (groupby_hour_sum df) with
      | kv :: _ => snd kv
      | [] => 0%Q
      end).


(** The entry at position 8 of [hourly_stats] (none when fewer than nine
    hours occur): the one position no slice of [time_blocks] reaches. *)
Definition ninth_bucket (hourly_stats : series) : Q :=
  series_sum (series_slice 8 9 hourly_stats).

(** The sum of the values of [block_percentages], when all are finite. *)
Fixpoint percentages_sum (l : list (string * npfloat)) : option Q :=
  match l with
  | [] => Some 0%Q
  | (_, Fin p) :: rest =>
      match percentages_sum rest with
      | Some q => Some (p + q)%Q
      | None => None
      end
  | _ :: _ => None
  end.

(** Nine events of one minute each, one in each of the hours 0 to 8. *)
Definition one_minute_at_hour (h : Z) : play_event :=
  mkEvent (h * 3600) 60000 (minutes_of_ms 60000) PyNone.

Definition hours_0_to_8 : list play_event :=
  map one_minute_at_hour [0; 1; 2; 3; 4; 5; 6; 7; 8].

(** One event of one minute at noon. *)
Definition only_noon : list play_event := [one_minute_at_hour 12].

(** One event that played for no time at all. *)
Definition nothing_played : list play_event :=
  [mkEvent (8 * 3600) 0 (minutes_of_ms 0) PyNone].

Section PlayedVectors.

Variable rng : Type.
Variable np_seed : Z -> rng.
Variable random_sample : rng -> Q * rng.

(** The vectors of the rows of a table, one per play event whose track has
    one, in row order. *)
Definition played_vectors (df : list play_event) : list feature :=
  flat_map (fun e => match synthesize np_seed random_sample (spotify_track_uri e) with
                     | Some f => [f]
                     | None => []
                     end) df.

End PlayedVectors.

Arguments played_vectors {rng} np_seed random_sample df.

(** ** Concrete data *)

Definition track_a : pystr := pystr_of_string "spotify:track:4uLU6hMCjMI75M1A2tKUQC".
Definition track_b : pystr := pystr_of_string "spotify:track:1301WleyT98MSxVHPZCA6M".

(** An id with a character outside ASCII and one outside the basic plane. *)
Definition track_unicode : pystr := [0x74; 0xE9; 0x4E2D; 0x1F3B5].

(** An id that holds a lone surrogate. *)
Definition track_surrogate : pystr := [0x74; 0xD800].

(** The three events of the example scenario of the specification. *)
Definition example_file : uploaded_file :=
  mkFile "StreamingHistory0.json"
         (Loaded [mkRaw "2023-01-05T08:15:00Z" 1000000 (PyStr track_a);
                  mkRaw "2023-01-05T08:20:00Z" 500000 (PyStr track_a);
                  mkRaw "2023-01-05T23:50:00Z" 2000000 (PyStr track_b)]).

Definition corrupt_file : uploaded_file := mkFile "StreamingHistory1.json" JSONDecodeError.

(** A file whose bytes are not UTF-8, and one that holds a single number. *)
Definition undecodable_file : uploaded_file :=
  mkFile "StreamingHistory3.json" (LoadRaised UnicodeDecodeError).

Definition scalar_file : uploaded_file := mkFile "StreamingHistory4.json" LoadedScalar.

Definition bad_timestamp_file : uploaded_file :=
  mkFile "StreamingHistory2.json"
         (Loaded [mkRaw "2023-01-05T08:15:00Z" 1000000 (PyStr track_a);
                  mkRaw "yesterday" 500000 (PyStr track_b)]).

(** The canonical table of [example_file]. *)
Definition example_table : list play_event :=
  [mkEvent 1672906500 1000000 (minutes_of_ms 1000000) (PyStr track_a);
   mkEvent 1672906800 500000 (minutes_of_ms 500000) (PyStr track_a);
   mkEvent 1672962600 2000000 (minutes_of_ms 2000000) (PyStr track_b)].

(** ** Further definitions *)

(** The records [json.load] returned for a file. *)
Definition file_records (f : uploaded_file) : list raw_record :=
  match json_load f with
  | Loaded data => data
  | LoadedWithStrays data => data
  | _ => []
  end.

(** How the loop of [add_audio_features] treats one element of
    [unique_tracks]. *)
Inductive treatment : Type :=
| Synthesized
| Warned
| Skipped.

Definition treatment_of (u : pyval) : treatment :=
  match u with
  | PyStr (c :: r) =>
      match str_encode (c :: r) with
      | Some _ => Synthesized
      | None => Warned
      end
  | _ => Skipped
  end.

Definition is_warned (u : pyval) : bool :=
  match treatment_of u with Warned => true | _ => false end.

Definition is_synthesized (u : pyval) : bool :=
  match treatment_of u with Synthesized => true | _ => false end.

(** An id that ends like [track_a]. *)
Definition track_same_tail : pystr := pystr_of_string "spotify:track:0000000000000000zzKUQC".

(** [x > y] on two float64 values *)
Definition npfloat_gt (x y : npfloat) : bool :=
  match x, y with
  | NaN, _ => false
  | _, NaN => false
  | Fin a, Fin b => Qlt_bool b a
  | Fin _, PInf => false
  | Fin _, NInf => true
  | PInf, PInf => false
  | PInf, _ => true
  | NInf, _ => false
  end.

(** The builtin [max(iterable, key=...)] after its first item: a later item
    replaces the current one only when its key is greater. *)
Fixpoint py_max_by {A : Type} (key : A -> npfloat) (best : A) (rest : list A) : A :=
  match rest with
  | [] => best
  | x :: r => py_max_by key (if npfloat_gt (key x) (key best) then x else best) r
  end.

(** Line 351: [max(block_percentages.items(), key=lambda x: x[1])]. *)
Definition max_block (df : list play_event) : option (string * npfloat) :=
  match block_percentages df with
  | [] => None
  | b :: rest => Some (py_max_by snd b rest)
  end.

(** [Series.idxmax()]: the label of the first entry that holds the largest
    value; on an empty Series it raises ([None]). *)
Fixpoint first_largest (best : Z * Q) (rest : series) : Z * Q :=
  match rest with
  | [] => best
  | kv :: r => first_largest (if Qlt_bool (snd best) (snd kv) then kv else best) r
  end.

Definition idxmax (s : series) : option Z :=
  match s with
  | [] => None
  | kv :: r => Some (fst (first_largest kv r))
  end.

(** Line 325: [peak_hour = hourly_stats.idxmax()]. *)
Definition peak_hour (df : list play_event) : option Z := idxmax (groupby_hour_sum df).

(** [pd.to_datetime(df['ts']).dt.date] as days since the epoch. *)
Definition date_of (t : Z) : Z := t / 86400.

(** One row entering a [size()] aggregation whose keys are kept sorted. *)
Fixpoint count_add (k : Z) (acc : list (Z * Z)) : list (Z * Z) :=
  match acc with
  | [] => [(k, 1)]
  | (k', n) :: rest =>
      if k <? k' then (k, 1) :: acc
      else if k =? k' then (k', n + 1) :: rest
      else (k', n) :: count_add k rest
  end.

(** Lines 80-84 of [create_daily_waveform]: the (date, count) rows. *)
Definition daily_counts (df : list play_event) : list (Z * Z) :=
  fold_left (fun acc e => count_add (date_of (ts e)) acc) df [].

(** The two bar traces of lines 87-104: the counts and their negation over
    the same dates. *)
Definition waveform_bars (df : list play_event) : list (Z * Z) * list (Z * Z) :=
  (daily_counts df, map (fun r : Z * Z => (fst r, - snd r)) (daily_counts df)).

(** [int(x)] on a float: truncation toward zero; NaN and the infinities
    raise ([None]). *)
Definition py_int (x : npfloat) : option Z :=
  match x with
  | Fin q => Some (Z.quot (Qnum q) (Zpos (Qden q)))
  | _ => None
  end.

(** Line 480 of [display_music_profile_analysis]: [int(value * 100)]. *)
Definition display_percentage (value : npfloat) : option Z := py_int (np_mul value 100).

(** The sentences [analyze_music_profile] can append after the first one. *)
Inductive clause : Type :=
| HighEnergy
| LaidBack
| Balanced
| GoodVibes
| MoodyDance
| Organic
| Electronic.

(** Lines 379-384. *)
Definition energy_clause (f : averaged_features) : clause :=
  if np_gt (avg_energy f) 0.7 then HighEnergy
  else if np_lt (avg_energy f) 0.4 then LaidBack
  else Balanced.

(** Lines 386-389. *)
Definition dance_clause (f : averaged_features) : list clause :=
  if np_gt (avg_danceability f) 0.65 && np_gt (avg_valence f) 0.6 then [GoodVibes]
  else if np_gt (avg_danceability f) 0.65 && np_lt (avg_valence f) 0.4 then [MoodyDance]
  else [].

(** Lines 391-394. *)
Definition acoustic_clause (f : averaged_features) : list clause :=
  if np_gt (avg_acousticness f) 0.6 then [Organic]
  else if np_lt (avg_acousticness f) 0.3 then [Electronic]
  else [].

(** Lines 377-396: the label and the clauses that follow the sentence which
    announces it, in order. *)
Definition profile_insights (f : averaged_features) : personality * list clause :=
  (classify f, energy_clause f :: dance_clause f ++ acoustic_clause f).

(** Twenty-four events of one minute each, one in every hour of the day. *)
Definition every_hour : list play_event := map one_minute_at_hour range24.

(** The hours that each block of [time_blocks] names, read as half-open
    ranges of hours. *)
Definition early_morning_hours : list Z := [5; 6; 7].
Definition work_hours : list Z := [9; 10; 11; 12; 13; 14; 15; 16].
Definition evening_hours : list Z := [17; 18; 19; 20; 21].
Definition late_night_hours : list Z := [22; 23; 0; 1; 2; 3; 4].

(** The minutes of the events whose hour is in [hours]. *)
Definition minutes_in_hours (hours : list Z) (df : list play_event) : Q :=
  Qsum (map (fun h => minutes_in_hour h df) hours).

(** Two finite float64 values in increasing order. *)
Definition finite_le (x y : npfloat) : Prop :=
  match x, y with
  | Fin a, Fin b => (a <= b)%Q
  | _, _ => False
  end.

Definition Zsum (l : list Z) : Z := fold_right Z.add 0 l.

(** The number of events of a table that fall on day [d]. *)
Definition events_on (d : Z) (df : list play_event) : Z :=
  Z.of_nat (List.length (filter (fun e => date_of (ts e) =? d) df)).

(** Three events on one day and one two days later. *)
Definition two_days : list play_event :=
  [mkEvent 1672906500 1000000 (minutes_of_ms 1000000) (PyStr track_a);
   mkEvent 1672906800 500000 (minutes_of_ms 500000) (PyStr track_a);
   mkEvent 1672962600 2000000 (minutes_of_ms 2000000) (PyStr track_b);
   mkEvent 1673100000 60000 (minutes_of_ms 60000) PyNone].

(** ** Rankings: [get_top_artists] and [get_top_songs] *)

(** A row of the table with the two name columns the rankings group by;
    a null name is [None]. *)
Record listening_row : Type := mkRow {
  row_event : play_event;
  master_metadata_track_name : option string;
  master_metadata_album_artist_name : option string
}.

Definition row_minutes (r : listening_row) : Q := minutes_played (row_event r).

(** The values of a column that are not null. *)
Definition present {A : Type} (col : list (option A)) : list A :=
  flat_map (fun o => match o with Some a => [a] | None => [] end) col.

Section GroupKeys.

Variable K : Type.
Variable key_eqb : K -> K -> bool.
Variable key_leb : K -> K -> bool.

(** The distinct keys in order of first appearance. *)
Fixpoint distinct_from (seen : list K) (l : list K) : list K :=
  match l with
  | [] => []
  | x :: r =>
      if existsb (key_eqb x) seen then distinct_from seen r
      else x :: distinct_from (x :: seen) r
  end.

Definition distinct (l : list K) : list K := distinct_from [] l.

Fixpoint insert_key (k : K) (l : list K) : list K :=
  match l with
  | [] => [k]
  | x :: r => if key_leb k x then k :: l else x :: insert_key k r
  end.

Definition sort_keys (l : list K) : list K := fold_right insert_key [] l.

(** The group keys of [df.groupby(...)] with its defaults [sort=True] and
    [dropna=True]: the distinct non-null keys, in key order. *)
Definition group_keys (col : list (option K)) : list K := sort_keys (distinct (present col)).

End GroupKeys.

Arguments distinct_from {K} key_eqb seen l.
Arguments distinct {K} key_eqb l.
Arguments insert_key {K} key_leb k l.
Arguments sort_keys {K} key_leb l.
Arguments group_keys {K} key_eqb key_leb col.

(** A row of the frame [get_top_artists] returns. *)
Record artist_stats : Type := mkArtist {
  artist_name : string;
  artist_minutes : Q;
  artist_tracks : nat
}.

Definition by_artist (a : string) (r : listening_row) : bool :=
  match master_metadata_album_artist_name r with
  | Some b => String.eqb a b
  | None => false
  end.

(** The aggregates of one artist: ['minutes_played': 'sum'] and
    ['master_metadata_track_name': 'nunique'] (nulls are not counted). *)
Definition artist_group (df : list listening_row) (a : string) : artist_stats :=
  let rows := filter (by_artist a) df in
  mkArtist a (Qsum (map row_minutes rows))
           (List.length (distinct String.eqb (present (map master_metadata_track_name rows)))).

(** Lines 44-47 before the sort: one row per artist, in artist order. *)
Definition artist_groups (df : list listening_row) : list artist_stats :=
  map (artist_group df)
      (group_keys String.eqb String.leb (map master_metadata_album_artist_name df)).

(** The key of [get_top_songs]: track name, artist name and track id, null
    as soon as one of the three is. *)
Definition song_key (r : listening_row) : option (string * string * pyval) :=
  match master_metadata_track_name r, master_metadata_album_artist_name r,
        spotify_track_uri (row_event r) with
  | Some t, Some a, PyNone => None
  | Some t, Some a, u => Some (t, a, u)
  | _, _, _ => None
  end.

Definition song_key_eqb (k1 k2 : string * string * pyval) : bool :=
  String.eqb (fst (fst k1)) (fst (fst k2))
  && String.eqb (snd (fst k1)) (snd (fst k2))
  && pyval_eqb (snd k1) (snd k2).

Fixpoint pystr_leb (a b : pystr) : bool :=
  match a, b with
  | [], _ => true
  | _ :: _, [] => false
  | x :: a', y :: b' => (x <? y) || ((x =? y) && pystr_leb a' b')
  end.

(** Ids are ordered as strings; in a column that mixes numbers and strings
    the numbers come first. *)
Definition pyval_leb (a b : pyval) : bool :=
  match a, b with
  | PyNone, _ => true
  | _, PyNone => false
  | PyInt n, PyInt m => n <=? m
  | PyInt _, PyStr _ => true
  | PyStr _, PyInt _ => false
  | PyStr s, PyStr t => pystr_leb s t
  end.

(** Keys are ordered column by column. *)
Definition song_key_leb (k1 k2 : string * string * pyval) : bool :=
  if String.eqb (fst (fst k1)) (fst (fst k2)) then
    if String.eqb (snd (fst k1)) (snd (fst k2)) then pyval_leb (snd k1) (snd k2)
    else String.leb (snd (fst k1)) (snd (fst k2))
  else String.leb (fst (fst k1)) (fst (fst k2)).

(** A row of the frame [get_top_songs] returns. *)
Record song_stats : Type := mkSong {
  song_key_of : string * string * pyval;
  song_minutes : Q;
  song_plays : nat
}.

Definition by_song (k : string * string * pyval) (r : listening_row) : bool :=
  match song_key r with
  | Some k' => song_key_eqb k k'
  | None => false
  end.

(** The aggregates of one song: ['minutes_played': 'sum'], ['ts': 'count']. *)
Definition song_group (df : list listening_row) (k : string * string * pyval) : song_stats :=
  let rows := filter (by_song k) df in
  mkSong k (Qsum (map row_minutes rows)) (List.length rows).

(** Lines 51-54 before the sort. *)
Definition song_groups (df : list listening_row) : list song_stats :=
  map (song_group df) (group_keys song_key_eqb song_key_leb (map song_key df)).

Section Rankings.

(** [sort_values(col, ascending=False)] with the default sort: what is
    known of it is that it returns its rows reordered so that the column
    decreases; rows with equal values come in an order the algorithm
    chooses. *)
Variable sort_artists : list artist_stats -> list artist_stats.
Variable sort_songs : list song_stats -> list song_stats.

(** Lines 42-47.  [head(n)] is called with 10, 8 and 1. *)
Definition get_top_artists (df : list listening_row) (n : nat) : list artist_stats :=
  firstn n (sort_artists (artist_groups df)).

(** Lines 49-54. *)
Definition get_top_songs (df : list listening_row) (n : nat) : list song_stats :=
  firstn n (sort_songs (song_groups df)).

(** Lines 512-513: [get_top_artists(df, 1).reset_index().iloc[0]] and
    [get_top_songs(df, 1).iloc[0]]; on an empty frame [iloc[0]] raises
    [IndexError] ([None]). *)
Definition top_artist (df : list listening_row) : option artist_stats :=
  match get_top_artists df 1 with
  | [] => None
  | a :: _ => Some a
  end.

Definition top_song (df : list listening_row) : option song_stats :=
  match get_top_songs df 1 with
  | [] => None
  | s :: _ => Some s
  end.

End Rankings.


(** An insertion sort that puts larger scores first: one sort of the kind
    [sort_values] is. *)
Fixpoint insert_desc {A : Type} (score : A -> Q) (x : A) (l : list A) : list A :=
  match l with
  | [] => [x]
  | y :: r => if Qle_bool (score y) (score x) then x :: l else y :: insert_desc score x r
  end.

Definition sort_desc {A : Type} (score : A -> Q) (l : list A) : list A :=
  fold_right (insert_desc score) [] l.

(** Two plays of a song by one artist, one play of a song of the same name
    by another artist, and a podcast episode (no track, no artist). *)
Definition ranking_rows : list listening_row :=
  [mkRow (mkEvent 1672906500 1000000 (minutes_of_ms 1000000) (PyStr track_a))
         (Some "Track X"%string) (Some "Artist A"%string);
   mkRow (mkEvent 1672906800 500000 (minutes_of_ms 500000) (PyStr track_a))
         (Some "Track X"%string) (Some "Artist A"%string);
   mkRow (mkEvent 1672962600 2000000 (minutes_of_ms 2000000) (PyStr track_b))
         (Some "Track X"%string) (Some "Artist B"%string);
   mkRow (mkEvent 1672966200 3000000 (minutes_of_ms 3000000) PyNone) None None].

(** * Properties *)

(** ** Code points, bytes and seeds *)

Lemma pystr_eqb_eq (a b : pystr) : pystr_eqb a b = true <-> a = b.
Proof.
  revert b; induction a as [|x a IH]; intros [|y b]; simpl; split;
    try congruence; try reflexivity.
  - intros H. apply andb_true_iff in H as [Hx Hr].
    apply Z.eqb_eq in Hx. apply IH in Hr. congruence.
  - intros H. injection H as -> ->. rewrite Z.eqb_refl. simpl. now apply IH.
Qed.

Lemma pyval_eqb_eq (a b : pyval) : pyval_eqb a b = true <-> a = b.
Proof.
  destruct a, b; simpl; split; try congruence; try reflexivity.
  - intros H. apply pystr_eqb_eq in H. congruence.
  - intros H. injection H as ->. now apply pystr_eqb_eq.
  - intros H. apply Z.eqb_eq in H. congruence.
  - intros H. injection H as ->. apply Z.eqb_refl.
Qed.

Lemma pyval_eqb_refl (a : pyval) : pyval_eqb a a = true.
Proof. now apply pyval_eqb_eq. Qed.

Lemma utf8_encode_char_scalar (c : Z) :
  scalar_value c -> exists bs, utf8_encode_char c = Some bs.
Proof.
  intros [_ Hs]. unfold utf8_encode_char.
  destruct (c <? 128); [eauto|].
  destruct (c <? 2048); [eauto|].
  destruct (0xD800 <=? c) eqn:E1; destruct (c <=? 0xDFFF) eqn:E2; simpl;
    try (destruct (c <? 0x10000); eauto; fail).
  exfalso. apply Hs. split; lia.
Qed.

Lemma str_encode_scalar (s : pystr) :
  Forall scalar_value s -> exists bs, str_encode s = Some bs.
Proof.
  induction 1 as [|c r Hc _ [bs IH]]; simpl; [eauto|].
  destruct (utf8_encode_char_scalar c Hc) as [b ->]. rewrite IH. eauto.
Qed.

Lemma seed_of_bytes_range (bs : list Z) : 0 <= seed_of_bytes bs <= 2 ^ 32 - 1.
Proof.
  unfold seed_of_bytes.
  pose proof (Z.mod_pos_bound (int_from_bytes_big bs) (2 ^ 32) ltac:(lia)). lia.
Qed.

(** ** Feature synthesis *)

Section FeatureSynthesisProperties.

Variable rng : Type.
Variable np_seed : Z -> rng.
Variable random_sample : rng -> Q * rng.
Hypothesis random_sample_unit :
  forall g, (0 <= fst (random_sample g) /\ fst (random_sample g) < 1)%Q.

Local Abbreviation synth := (synthesize np_seed random_sample).
Local Abbreviation synth_all := (synthesize_all np_seed random_sample).
Local Abbreviation run_loop := (synthesis_loop np_seed random_sample).
Local Abbreviation body := (loop_body np_seed random_sample).
Local Abbreviation draw := (draw_feature random_sample).

(** The seed computed on line 71 is always one that [np.random.seed]
    accepts. *)
Lemma np_random_seed_accepts (bs : list Z) :
  np_random_seed np_seed (seed_of_bytes bs) = Some (np_seed (seed_of_bytes bs)).
Proof.
  unfold np_random_seed. pose proof (seed_of_bytes_range bs) as H.
  destruct (0 <=? seed_of_bytes bs) eqn:E1; [|lia].
  destruct (seed_of_bytes bs <=? 2 ^ 32 - 1) eqn:E2; [reflexivity|lia].
Qed.

Lemma draw_feature_uri (s : pystr) (g : rng) : f_uri (fst (draw s g)) = s.
Proof.
  unfold draw_feature, np_random_uniform.
  repeat match goal with |- context [random_sample ?x] => destruct (random_sample x) end.
  reflexivity.
Qed.

Lemma synthesize_uri (u : pyval) (f : feature) :
  synth u = Some f -> u = PyStr (f_uri f) /\ f_uri f <> [].
Proof.
  destruct u as [|[|c r]|n]; simpl; try discriminate.
  destruct (utf8_encode_char c); [|discriminate].
  destruct (str_encode r); [|discriminate].
  rewrite np_random_seed_accepts. intros [= <-].
  rewrite draw_feature_uri. split; [reflexivity|discriminate].
Qed.

(** One iteration appends exactly what the per-track function gives,
    whatever the generator state was before. *)
Lemma loop_body_features (st : loop_state rng) (u : pyval) :
  audio_features (body st u)
  = audio_features st ++ match synth u with Some f => [f] | None => [] end.
Proof.
  unfold loop_body.
  destruct u as [|[|c r]|n]; simpl; try (now rewrite app_nil_r).
  - destruct (utf8_encode_char c); [|simpl; now rewrite app_nil_r].
    destruct (str_encode r); [|simpl; now rewrite app_nil_r].
    rewrite np_random_seed_accepts.
    destruct (draw (c :: r) (np_seed (seed_of_bytes (l ++ l0)))). reflexivity.
  - destruct (negb (n =? 0)); simpl; now rewrite app_nil_r.
Qed.

Lemma fold_loop_features (us : list pyval) (st : loop_state rng) :
  audio_features (fold_left body us st) = audio_features st ++ synth_all us.
Proof.
  revert st; induction us as [|u us IH]; intros st; simpl.
  - now rewrite app_nil_r.
  - rewrite IH, loop_body_features.
    destruct (synth u); simpl; rewrite <- app_assoc; reflexivity.
Qed.

(** [features_df] is the per-track function mapped over the batch. *)
Lemma synthesis_loop_features (g0 : rng) (us : list pyval) :
  audio_features (run_loop g0 us) = synth_all us.
Proof. unfold synthesis_loop. now rewrite fold_loop_features. Qed.

Lemma in_synthesize_all (us : list pyval) (f : feature) :
  In f (synth_all us) <-> exists u, In u us /\ synth u = Some f.
Proof.
  induction us as [|u us IH]; simpl.
  - split; [tauto|]. intros [u [[] _]].
  - destruct (synth u) as [f'|] eqn:E; simpl; rewrite IH; split.
    + intros [<-|[u' [Hin Hs]]]; eauto.
    + intros [u' [[<-|Hin] Hs]]; [left; congruence|right; eauto].
    + intros [u' [Hin Hs]]; eauto.
    + intros [u' [[<-|Hin] Hs]]; [congruence|eauto].
Qed.

Lemma features_row_none (us : list pyval) (s : pystr) :
  synth (PyStr s) = None -> features_row s (synth_all us) = None.
Proof.
  intros Hs. unfold features_row.
  induction us as [|u us IH]; cbn [synthesize_all find]; [reflexivity|].
  destruct (synth u) as [f|] eqn:E; [|exact IH].
  cbn [find]. destruct (pystr_eqb (f_uri f) s) eqn:Eq; [|exact IH].
  apply pystr_eqb_eq in Eq. destruct (synthesize_uri _ _ E) as [Hu _].
  subst. congruence.
Qed.

Lemma features_row_synthesize_all (us : list pyval) (s : pystr) :
  In (PyStr s) us -> features_row s (synth_all us) = synth (PyStr s).
Proof.
  induction us as [|u us IH]; intros Hin; [destruct Hin|].
  cbn [synthesize_all]. destruct (synth u) as [f|] eqn:E.
  - unfold features_row. cbn [find].
    destruct (pystr_eqb (f_uri f) s) eqn:Eq.
    + apply pystr_eqb_eq in Eq. destruct (synthesize_uri _ _ E) as [Hu _].
      subst u s. symmetry. exact E.
    + apply IH. destruct Hin as [->|Hin]; [|exact Hin].
      destruct (synthesize_uri _ _ E) as [Hu _]. injection Hu as ->.
      assert (pystr_eqb (f_uri f) (f_uri f) = true) by now apply pystr_eqb_eq.
      congruence.
  - destruct Hin as [->|Hin]; [|now apply IH].
    rewrite E. now apply features_row_none.
Qed.

Lemma draw_feature_ranges (s : pystr) (g : rng) :
  in_documented_ranges (fst (draw s g)) /\ (70 <= tempo (fst (draw s g)) <= 180)%Q.
Proof.
  unfold draw_feature, np_random_uniform.
  repeat match goal with
         | |- context [random_sample ?x] =>
             let H := fresh "H" in
             pose proof (random_sample_unit x) as H;
             destruct (random_sample x); cbn [fst] in H
         end.
  unfold in_documented_ranges; cbn [fst danceability energy valence tempo speechiness
                                    acousticness instrumentalness].
  repeat split; lra.
Qed.

Lemma synthesize_accepts (s : pystr) :
  s <> [] -> Forall scalar_value s -> exists f, synth (PyStr s) = Some f /\ f_uri f = s.
Proof.
  intros Hne Hs. destruct (str_encode_scalar s Hs) as [bs Hbs].
  destruct s as [|c r]; [congruence|].
  unfold synthesize. rewrite Hbs, np_random_seed_accepts.
  eexists; split; [reflexivity|apply draw_feature_uri].
Qed.

Lemma synthesize_seeded (s : pystr) :
  synth (PyStr s)
  = match s, str_encode s with
    | _ :: _, Some bs =>
        Some (fst (draw s (np_seed (seed_of_bytes bs))))
    | _, _ => None
    end.
Proof.
  destruct s as [|c r]; [reflexivity|].
  unfold synthesize. destruct (str_encode (c :: r)); [|reflexivity].
  now rewrite np_random_seed_accepts.
Qed.

(** C1.  Whatever state the global generator is in when a batch starts and
    whatever else the batch holds, in whatever order, the row that
    [features_df] gets for a track id is the same, field for field: it
    is the seven draws made from the state seeded with the big-endian
    integer of the UTF-8 bytes of the id, reduced modulo 2^32.  Taking the
    second batch to be the first one again and the second state to be the
    one the first run left gives the same-run case. *)
Theorem synthesis_depends_only_on_track_id
  (g0 g1 : rng) (batch1 batch2 : list pyval) (s : pystr) :
  s <> [] -> In (PyStr s) batch1 -> In (PyStr s) batch2 ->
  features_row s (audio_features (run_loop g0 batch1))
  = features_row s (audio_features (run_loop g1 batch2))
  /\ features_row s (audio_features (run_loop g0 batch1))
     = match str_encode s with
       | Some bs => Some (fst (draw s (np_seed (seed_of_bytes bs))))
       | None => None
       end.
Proof.
  intros Hne H1 H2. rewrite !synthesis_loop_features.
  rewrite (features_row_synthesize_all batch1 s H1).
  rewrite (features_row_synthesize_all batch2 s H2).
  split; [reflexivity|]. rewrite synthesize_seeded.
  destruct s; [congruence|reflexivity].
Qed.

(** C2.  Every row the loop produces has its six dimensions inside the
    documented closed ranges and belongs to a non-empty string id of the
    batch (so nothing is produced for the empty string, for null or for a
    non-string); and every non-empty id made of Unicode scalar values,
    however long, does get its row. *)
Theorem synthesized_dimensions_within_ranges (g0 : rng) (batch : list pyval) :
  (forall f, In f (audio_features (run_loop g0 batch)) ->
             in_documented_ranges f /\ f_uri f <> [] /\ In (PyStr (f_uri f)) batch)
  /\ features_row [] (audio_features (run_loop g0 batch)) = None
  /\ (forall s, In (PyStr s) batch -> s <> [] -> Forall scalar_value s ->
                exists f, features_row s (audio_features (run_loop g0 batch)) = Some f
                          /\ f_uri f = s /\ in_documented_ranges f).
Proof.
  rewrite synthesis_loop_features. split; [|split].
  - intros f Hf. apply in_synthesize_all in Hf as [u [Hin Hs]].
    destruct (synthesize_uri _ _ Hs) as [Hu Hne]. subst u. split; [|tauto].
    rewrite synthesize_seeded in Hs.
    destruct (f_uri f); [congruence|]. destruct (str_encode (z :: p)); [|discriminate].
    injection Hs as <-. apply draw_feature_ranges.
  - now apply features_row_none.
  - intros s Hin Hne Hs. rewrite (features_row_synthesize_all batch s Hin).
    destruct (synthesize_accepts s Hne Hs) as [f [Hf Hu]].
    exists f. split; [exact Hf|split; [exact Hu|]].
    rewrite synthesize_seeded in Hf.
    destruct s; [congruence|]. destruct (str_encode (z :: s)); [|discriminate].
    injection Hf as <-. apply draw_feature_ranges.
Qed.


End FeatureSynthesisProperties.

(** ** Ingestion *)

(** When every file holds an array of records the loop runs to its end
    and [all_data] is their concatenation, in upload order. *)
Lemma load_files_loaded (files : list uploaded_file) (acc : list raw_record) :
  Forall loads_records files ->
  load_files files acc = inl (acc ++ flat_map file_records files).
Proof.
  intros H; revert acc; induction H as [|f files [data Hf] _ IH]; intros acc; simpl.
  - now rewrite app_nil_r.
  - unfold file_records at 1. rewrite Hf, IH, app_assoc. reflexivity.
Qed.

Lemma loads_records_no_strays (files : list uploaded_file) :
  Forall loads_records files -> holds_strays files = false.
Proof.
  unfold holds_strays. induction 1 as [|f files [data Hf] _ IH]; [reflexivity|].
  cbn [existsb]. now rewrite Hf, IH.
Qed.

(** The loop stops at the first file that raises [json.JSONDecodeError];
    what was accumulated until then plays no part in the result. *)
Lemma load_files_first_failure (before after : list uploaded_file) (bad : uploaded_file)
  (acc : list raw_record) :
  Forall loop_continues before ->
  json_load bad = JSONDecodeError ->
  load_files (before ++ bad :: after) acc = inr (ReportedError (name bad)).
Proof.
  intros H Hbad; revert acc; induction H as [|f before [data [Hf|Hf]] _ IH];
    intros acc; simpl.
  - now rewrite Hbad.
  - rewrite Hf. apply IH.
  - rewrite Hf. apply IH.
Qed.

(** The same for a file on which [json.load] or [extend] raises something
    line 37 does not catch: the exception leaves the loop. *)
Lemma load_files_first_uncaught (before after : list uploaded_file) (bad : uploaded_file)
  (acc : list raw_record) (e : exn) :
  Forall loop_continues before ->
  json_load bad = LoadRaised e \/ (json_load bad = LoadedScalar /\ e = TypeError) ->
  load_files (before ++ bad :: after) acc = inr (Uncaught e).
Proof.
  intros H Hbad; revert acc; induction H as [|f before [data [Hf|Hf]] _ IH];
    intros acc; simpl.
  - destruct Hbad as [->|[-> ->]]; reflexivity.
  - rewrite Hf. apply IH.
  - rewrite Hf. apply IH.
Qed.

Lemma load_files_completes (files : list uploaded_file) (acc all_data : list raw_record) :
  load_files files acc = inl all_data -> Forall loop_continues files.
Proof.
  revert acc; induction files as [|f files IH]; intros acc H; [constructor|].
  simpl in H. destruct (json_load f) as [|e|data| |data] eqn:E; try discriminate.
  - constructor; [exists data; now left|eapply IH; exact H].
  - constructor; [exists data; now right|eapply IH; exact H].
Qed.

Section IngestionProperties.

Variable parse_datetime : string -> option Z.

Local Abbreviation ingest := (process_files parse_datetime).
Local Abbreviation convert := (to_datetime parse_datetime).

Lemma to_datetime_raises (column : list string) (position : nat) :
  (exists s, In s column /\ parse_datetime s = None) ->
  exists value at_position,
    convert position column = inr (ValueError value at_position)
    /\ parse_datetime value = None
    /\ nth_error column (at_position - position) = Some value
    /\ (position <= at_position)%nat
    /\ Forall (fun s => parse_datetime s <> None)
              (firstn (at_position - position) column).
Proof.
  revert position; induction column as [|s column IH]; intros position [x [Hin Hx]];
    [destruct Hin|].
  simpl. destruct (parse_datetime s) as [t|] eqn:E.
  - destruct (IH (S position)) as [v [p [Hc [Hv [Hn [Hle Hall]]]]]].
    + destruct Hin as [->|Hin]; [congruence|eauto].
    + exists v, p. rewrite Hc.
      replace (p - position)%nat with (S (p - S position)) by lia.
      simpl. repeat split; try assumption; try lia.
      constructor; [congruence|exact Hall].
  - exists s, position. rewrite Nat.sub_diag. simpl.
    repeat split; try assumption; try lia. constructor.
Qed.

Lemma to_datetime_converts (column : list string) (position : nat) :
  Forall (fun s => parse_datetime s <> None) column ->
  exists tss, convert position column = inl tss
              /\ map Some tss = map parse_datetime column.
Proof.
  intros H; revert position; induction H as [|s column Hs _ IH]; intros position; simpl.
  - exists []. split; reflexivity.
  - destruct (parse_datetime s) as [t|]; [|congruence].
    destruct (IH (S position)) as [tss [-> Hm]].
    exists (t :: tss). simpl. now rewrite Hm.
Qed.

Lemma build_frame_rows (all_data : list raw_record) (tss : list Z) :
  List.length tss = List.length all_data ->
  map ms_played (build_frame all_data tss) = map r_ms_played all_data
  /\ map ts (build_frame all_data tss) = tss
  /\ map spotify_track_uri (build_frame all_data tss) = map r_spotify_track_uri all_data.
Proof.
  unfold build_frame.
  revert tss; induction all_data as [|r all_data IH]; intros [|t tss] Hlen;
    try discriminate; [repeat split|].
  injection Hlen as Hlen. destruct (IH tss Hlen) as [H1 [H2 H3]].
  cbn [combine map fst snd ms_played ts spotify_track_uri].
  rewrite H1, H2, H3. repeat split.
Qed.

(** When every file parses and every timestamp parses, the table has one row
    per record, in order: rows are never dropped. *)
Lemma process_files_keeps_every_record (files : list uploaded_file) :
  Forall loads_records files -> flat_map file_records files <> [] ->
  Forall (fun s => parse_datetime s <> None) (map r_ts (flat_map file_records files)) ->
  exists df,
    ingest files = Returned (Some df) []
    /\ map ms_played df = map r_ms_played (flat_map file_records files)
    /\ map Some (map ts df) = map parse_datetime (map r_ts (flat_map file_records files))
    /\ map spotify_track_uri df = map r_spotify_track_uri (flat_map file_records files).
Proof.
  intros Hok Hne Hall. unfold process_files.
  pose proof (load_files_loaded files [] Hok) as Hl. cbn [app] in Hl.
  rewrite Hl, (loads_records_no_strays files Hok).
  set (all_data := flat_map file_records files) in *.
  destruct (to_datetime_converts (map r_ts all_data) 0 Hall) as [tss [Hc Hm]].
  destruct all_data as [|r0 rest]; [congruence|]. rewrite Hc.
  assert (Hlen : List.length tss = List.length (r0 :: rest)).
  { rewrite <- (length_map Some tss), Hm, !length_map. reflexivity. }
  destruct (build_frame_rows (r0 :: rest) tss Hlen) as [H1 [H2 H3]].
  eexists. split; [reflexivity|]. rewrite H1, H2, H3. repeat split. exact Hm.
Qed.

(** A file that raises [json.JSONDecodeError], when no file before it stops
    the loop, ends the call with [None] after one [st.error] that names it;
    the outcome is the one the file would give alone, so nothing read from
    the files before it reaches the output. *)
Lemma first_json_error_is_named (before after : list uploaded_file) (bad : uploaded_file) :
  Forall loop_continues before ->
  json_load bad = JSONDecodeError ->
  ingest (before ++ bad :: after) = Returned None [error_reading (name bad)]
  /\ ingest (before ++ bad :: after) = ingest [bad].
Proof.
  intros Hb Hbad. unfold process_files.
  rewrite (load_files_first_failure before after bad [] Hb Hbad).
  simpl. rewrite Hbad. split; reflexivity.
Qed.

(** A file on which [json.load] raises another exception, or whose value
    cannot be iterated, ends the call with that exception: no [st.error] is
    shown and nothing names the file. *)
Lemma first_uncaught_error_is_not_named (before after : list uploaded_file)
  (bad : uploaded_file) (e : exn) :
  Forall loop_continues before ->
  json_load bad = LoadRaised e \/ (json_load bad = LoadedScalar /\ e = TypeError) ->
  ingest (before ++ bad :: after) = Raised e
  /\ reported_source (before ++ bad :: after) (ingest (before ++ bad :: after)) = None
  /\ returned_table (ingest (before ++ bad :: after)) = None.
Proof.
  intros Hb Hbad. unfold process_files.
  rewrite (load_files_first_uncaught before after bad [] e Hb Hbad).
  repeat split.
Qed.

(** Whatever makes a file something else than an array of records, the
    call returns no table. *)
Lemma source_failure_returns_no_table (files : list uploaded_file) :
  (exists f, In f files /\ ~ loads_records f) -> returned_table (ingest files) = None.
Proof.
  intros [f [Hin Hbad]]. unfold process_files.
  destruct (load_files files []) as [all_data|[file_name|e]] eqn:El; [|reflexivity..].
  assert (Hs : holds_strays files = true).
  { apply load_files_completes in El. rewrite Forall_forall in El.
    destruct (El f Hin) as [data [Hf|Hf]]; [exfalso; apply Hbad; now exists data|].
    unfold holds_strays. apply existsb_exists. exists f. split; [exact Hin|now rewrite Hf]. }
  rewrite Hs. reflexivity.
Qed.

(** C5.  The source evaluated on a valid export followed by a file whose
    bytes are not UTF-8: [json.load] raises [UnicodeDecodeError], line 37
    does not catch it, and the call ends with that exception; no [st.error]
    is shown and nothing names the file.  The same upload with a file that
    holds a number ends with the [TypeError] of [extend].  With a file that
    raises [json.JSONDecodeError] in their place the call returns [None]
    after the error that names the file.  In all three no table is
    returned. *)
Theorem undecodable_source_is_not_named :
  process_files ExportTimestamp.parse [example_file; undecodable_file]
  = Raised UnicodeDecodeError
  /\ reported_source [example_file; undecodable_file]
       (process_files ExportTimestamp.parse [example_file; undecodable_file]) = None
  /\ returned_table (process_files ExportTimestamp.parse [example_file; undecodable_file])
     = None
  /\ process_files ExportTimestamp.parse [example_file; scalar_file] = Raised TypeError
  /\ reported_source [example_file; scalar_file]
       (process_files ExportTimestamp.parse [example_file; scalar_file]) = None
  /\ process_files ExportTimestamp.parse [example_file; corrupt_file]
     = Returned None [error_reading (name corrupt_file)]
  /\ reported_source [example_file; corrupt_file]
       (process_files ExportTimestamp.parse [example_file; corrupt_file])
     = Some (name corrupt_file).
Proof. repeat split; vm_compute; reflexivity. Qed.


End IngestionProperties.

(** ** Aggregation *)

Lemma Qsum_app (a b : list Q) : (Qsum (a ++ b) == Qsum a + Qsum b)%Q.
Proof.
  induction a as [|x a IH]; simpl; [ring|]. rewrite IH. ring.
Qed.

Lemma hour_of_range (t : Z) : 0 <= hour_of t < 24.
Proof. unfold hour_of. apply Z.mod_pos_bound. lia. Qed.

Lemma group_add_held (h k : Z) (m : Q) (acc : series) :
  (held_at h (group_add k m acc) == held_at h acc + (if h =? k then m else 0))%Q.
Proof.
  unfold held_at. induction acc as [|[k' v] acc IH]; simpl.
  - destruct (h =? k); simpl; ring.
  - destruct (k <? k') eqn:Elt; [|destruct (k =? k') eqn:Eeq]; simpl.
    + destruct (h =? k) eqn:Ehk; destruct (h =? k'); simpl; ring.
    + apply Z.eqb_eq in Eeq. subst k'.
      destruct (h =? k); simpl; ring.
    + destruct (h =? k'); simpl; rewrite IH; ring.
Qed.

Lemma groupby_fold_held (h : Z) (df : list play_event) (acc : series) :
  (held_at h (fold_left (fun a e => group_add (hour_of (ts e)) (minutes_played e) a) df acc)
   == held_at h acc + minutes_in_hour h df)%Q.
Proof.
  revert acc; induction df as [|e df IH]; intros acc; simpl.
  - unfold minutes_in_hour. simpl. ring.
  - rewrite IH, group_add_held. unfold minutes_in_hour. simpl.
    rewrite (Z.eqb_sym h). destruct (hour_of (ts e) =? h); simpl; ring.
Qed.

(** Each group holds the minutes of the events of its hour. *)
Lemma groupby_hour_sum_held (h : Z) (df : list play_event) :
  (held_at h (groupby_hour_sum df) == minutes_in_hour h df)%Q.
Proof.
  unfold groupby_hour_sum. rewrite groupby_fold_held. unfold held_at. simpl. ring.
Qed.

Lemma group_add_keys (k : Z) (m : Q) (acc : series) (x : Z) :
  In x (map fst (group_add k m acc)) -> x = k \/ In x (map fst acc).
Proof.
  induction acc as [|[k' v] acc IH]; simpl; [intuition congruence|].
  destruct (k <? k'); [|destruct (k =? k')]; simpl; try (intuition congruence).
Qed.

Lemma group_add_sorted (k : Z) (m : Q) (acc : series) :
  StronglySorted Z.lt (map fst acc) -> StronglySorted Z.lt (map fst (group_add k m acc)).
Proof.
  induction acc as [|[k' v] acc IH]; simpl; intros Hs.
  - repeat constructor.
  - inversion Hs as [|? ? Hs' Hall]; subst.
    destruct (k <? k') eqn:Elt; [|destruct (k =? k') eqn:Eeq]; simpl.
    + apply Z.ltb_lt in Elt. constructor; [exact Hs|].
      constructor; [exact Elt|].
      eapply Forall_impl; [|exact Hall]. intros; lia.
    + constructor; assumption.
    + constructor; [now apply IH|].
      apply Forall_forall. intros x Hx. apply group_add_keys in Hx as [->|Hx].
      * apply Z.ltb_ge in Elt. apply Z.eqb_neq in Eeq. lia.
      * rewrite Forall_forall in Hall. now apply Hall.
Qed.

Lemma groupby_hour_sum_sorted (df : list play_event) :
  StronglySorted Z.lt (map fst (groupby_hour_sum df)).
Proof.
  unfold groupby_hour_sum.
  assert (H : forall acc, StronglySorted Z.lt (map fst acc) ->
            StronglySorted Z.lt
              (map fst (fold_left (fun a e => group_add (hour_of (ts e)) (minutes_played e) a)
                                  df acc))).
  { induction df as [|e df IH]; intros acc Hacc; simpl; [exact Hacc|].
    apply IH. now apply group_add_sorted. }
  apply H. constructor.
Qed.

(** In a series with increasing labels, a label selects at most one entry. *)
Lemma sorted_filter_label (h : Z) (s : series) :
  StronglySorted Z.lt (map fst s) ->
  filter (fun kv : Z * Q => h =? fst kv) s = []
  \/ exists v, filter (fun kv : Z * Q => h =? fst kv) s = [(h, v)].
Proof.
  induction s as [|[k v] s IH]; simpl; intros Hs; [now left|].
  inversion Hs as [|? ? Hs' Hall]; subst.
  destruct (h =? k) eqn:E.
  - apply Z.eqb_eq in E. subst k. right. exists v. f_equal.
    clear IH Hs Hs'. induction s as [|[k' v'] s IH]; simpl; [reflexivity|].
    inversion Hall as [|? ? Hlt Hall']; subst. simpl in Hlt.
    destruct (h =? k') eqn:E'; [apply Z.eqb_eq in E'; lia|now apply IH].
  - now apply IH.
Qed.

(** No event of hour [h]: the group does not exist at all. *)
Lemma group_add_absent (h k : Z) (m : Q) (acc : series) :
  h <> k ->
  filter (fun kv : Z * Q => h =? fst kv) acc = [] ->
  filter (fun kv : Z * Q => h =? fst kv) (group_add k m acc) = [].
Proof.
  intros Hne. induction acc as [|[k' v] acc IH]; simpl.
  - intros _. destruct (h =? k) eqn:E; [apply Z.eqb_eq in E; congruence|reflexivity].
  - destruct (h =? k') eqn:E'; [discriminate|]. intros Hf.
    destruct (k <? k'); [|destruct (k =? k') eqn:Eeq]; simpl.
    + destruct (h =? k) eqn:E; [apply Z.eqb_eq in E; congruence|].
      now rewrite E'.
    + now rewrite E'.
    + rewrite E'. now apply IH.
Qed.

Lemma groupby_hour_sum_absent (h : Z) (df : list play_event) :
  (forall e, In e df -> hour_of (ts e) <> h) ->
  filter (fun kv : Z * Q => h =? fst kv) (groupby_hour_sum df) = [].
Proof.
  unfold groupby_hour_sum. intros H.
  assert (G : forall acc, filter (fun kv : Z * Q => h =? fst kv) acc = [] ->
            filter (fun kv : Z * Q => h =? fst kv)
              (fold_left (fun a e => group_add (hour_of (ts e)) (minutes_played e) a) df acc)
            = []).
  { induction df as [|e df IH]; intros acc Hacc; simpl; [exact Hacc|].
    apply IH.
    - intros e' He'. apply H. now right.
    - apply group_add_absent; [|exact Hacc].
      intros ->. apply (H e); [now left|reflexivity]. }
  now apply G.
Qed.

Lemma merge_left_cons {A B : Type} (key_match : A -> B -> bool) (a : A)
  (left : list A) (right : list B) :
  merge_left key_match (a :: left) right
  = match filter (key_match a) right with
    | [] => [(a, None)]
    | ms => map (fun b => (a, Some b)) ms
    end ++ merge_left key_match left right.
Proof. reflexivity. Qed.

Lemma merge_hours_cells (df : list play_event) (hs : list Z) :
  map (fun r : Z * option (Z * Q) =>
         (fst r, match snd r with Some kv => snd kv | None => 0%Q end))
      (merge_left (fun h (kv : Z * Q) => h =? fst kv) hs (groupby_hour_sum df))
  = map (filled_cell df) hs.
Proof.
  induction hs as [|h hs IH]; [reflexivity|].
  rewrite merge_left_cons, map_app, IH.
  change (map (filled_cell df) (h :: hs)) with ([filled_cell df h] ++ map (filled_cell df) hs).
  f_equal. unfold filled_cell.
  destruct (sorted_filter_label h (groupby_hour_sum df) (groupby_hour_sum_sorted df))
    as [->|[v ->]]; reflexivity.
Qed.

Lemma hourly_profile_cells (df : list play_event) :
  hourly_profile df = map (filled_cell df) range24.
Proof. apply merge_hours_cells. Qed.

(** C8.  The frame behind the listening clock has exactly the 24 rows of
    hours 0 to 23, in order; the value of each row is the sum of the minutes
    of the events whose timestamp falls in that hour, and a row whose hour
    has no event is there with the value 0. *)
Theorem hourly_profile_has_24_buckets (df : list play_event) :
  List.length (hourly_profile df) = 24%nat
  /\ map fst (hourly_profile df)
     = [0; 1; 2; 3; 4; 5; 6; 7; 8; 9; 10; 11; 12; 13; 14; 15; 16; 17; 18; 19; 20; 21; 22; 23]
  /\ Forall (fun row => (snd row == minutes_in_hour (fst row) df)%Q) (hourly_profile df)
  /\ Forall (fun row => (forall e, In e df -> hour_of (ts e) <> fst row) -> snd row = 0%Q)
            (hourly_profile df).
Proof.
  rewrite hourly_profile_cells. split; [reflexivity|]. split; [reflexivity|].
  split; apply Forall_forall; intros row Hrow; apply in_map_iff in Hrow as [h [<- _]];
    unfold filled_cell; cbn [fst snd].
  - rewrite <- groupby_hour_sum_held. unfold held_at.
    destruct (sorted_filter_label h (groupby_hour_sum df) (groupby_hour_sum_sorted df))
      as [->|[v ->]]; simpl; ring.
  - intros Hno. now rewrite groupby_hour_sum_absent.
Qed.

(** ** Time blocks *)

Lemma series_sum_split (n : nat) (s : series) :
  (series_sum s == series_sum (firstn n s) + series_sum (skipn n s))%Q.
Proof.
  unfold series_sum. rewrite <- Qsum_app, <- map_app, firstn_skipn. reflexivity.
Qed.

(** The four slices of [time_blocks] reach every position except the ninth. *)
Lemma block_minutes_cover (s : series) :
  (block_minutes s 5 8 + block_minutes s 9 17 + block_minutes s 17 22 + block_minutes s 22 5
   == series_sum s - ninth_bucket s)%Q.
Proof.
  unfold block_minutes, ninth_bucket, series_slice, series_from, series_upto.
  cbn [Nat.ltb Nat.leb Nat.sub].
  pose proof (series_sum_split 5 s) as H0.
  pose proof (series_sum_split 3 (skipn 5 s)) as H1.
  pose proof (series_sum_split 1 (skipn 8 s)) as H2.
  pose proof (series_sum_split 8 (skipn 9 s)) as H3.
  pose proof (series_sum_split 5 (skipn 17 s)) as H4.
  rewrite skipn_skipn in H1, H2, H3, H4. cbn [Nat.add] in H1, H2, H3, H4.
  lra.
Qed.

Lemma group_add_sum (k : Z) (m : Q) (acc : series) :
  (series_sum (group_add k m acc) == series_sum acc + m)%Q.
Proof.
  unfold series_sum. induction acc as [|[k' v] acc IH]; simpl; [ring|].
  destruct (k <? k'); [|destruct (k =? k')]; simpl; try ring.
  rewrite IH. ring.
Qed.

(** [hourly_stats.sum()] is the total of the [minutes_played] column. *)
Lemma groupby_hour_sum_total (df : list play_event) :
  (series_sum (groupby_hour_sum df) == total_minutes_played df)%Q.
Proof.
  unfold groupby_hour_sum, total_minutes_played.
  assert (H : forall acc,
            (series_sum (fold_left (fun a e => group_add (hour_of (ts e)) (minutes_played e) a)
                                   df acc)
             == series_sum acc + Qsum (map minutes_played df))%Q).
  { induction df as [|e df IH]; intros acc; simpl; [ring|].
    rewrite IH, group_add_sum. ring. }
  rewrite H. unfold series_sum. simpl. ring.
Qed.

Lemma Qeq_bool_false (a b : Q) : ~ (a == b)%Q -> Qeq_bool a b = false.
Proof.
  intros H. destruct (Qeq_bool a b) eqn:E; [|reflexivity].
  apply Qeq_bool_iff in E. contradiction.
Qed.

Lemma Qeq_bool_true (a b : Q) : (a == b)%Q -> Qeq_bool a b = true.
Proof. apply Qeq_bool_iff. Qed.

(** With a total other than zero the four shares add up to the share of
    everything but the ninth bucket. *)
Lemma block_percentages_sum (df : list play_event) :
  ~ (total_minutes_played df == 0)%Q ->
  exists p, percentages_sum (block_percentages df) = Some p
            /\ (p == 100 * (total_minutes_played df - ninth_bucket (groupby_hour_sum df))
                     / total_minutes_played df)%Q.
Proof.
  intros Hne. pose proof (groupby_hour_sum_total df) as Ht.
  pose proof (block_minutes_cover (groupby_hour_sum df)) as Hc.
  unfold block_percentages, time_blocks. cbn [map fst snd].
  unfold np_truediv. rewrite Qeq_bool_false by (rewrite Ht; exact Hne).
  cbn [np_mul percentages_sum]. eexists. split; [reflexivity|].
  rewrite <- Ht in *. set (t := series_sum (groupby_hour_sum df)) in *.
  field_simplify_eq; [|exact Hne]. lra.
Qed.

(** C3.  The source evaluated on nine one-minute events, one in each of the
    hours 0 to 8: the total is 9 minutes, the shares are 100/3, 0, 0 and
    500/9, and they add up to 800/9, more than 11 below 100: no block of
    [time_blocks] counts the bucket at position 8.  On a single event at
    noon the late-night share is 100 although nothing was played in hours
    22, 23 or 0 to 4: the slices count positions of the hours that occur. *)
Theorem time_blocks_do_not_cover_the_day :
  (total_minutes_played hours_0_to_8 == 9)%Q
  /\ (exists p1 p2 p3 p4,
        block_percentages hours_0_to_8
        = [("early_morning"%string, Fin p1); ("work_hours"%string, Fin p2);
           ("evening"%string, Fin p3); ("late_night"%string, Fin p4)]
        /\ (p1 == 100 / 3)%Q /\ (p2 == 0)%Q /\ (p3 == 0)%Q /\ (p4 == 500 / 9)%Q
        /\ (p1 + p2 + p3 + p4 == 800 / 9)%Q
        /\ ~ (100 - 0.01 <= p1 + p2 + p3 + p4 <= 100 + 0.01)%Q)
  /\ (exists q1 q2 q3 q4,
        block_percentages only_noon
        = [("early_morning"%string, Fin q1); ("work_hours"%string, Fin q2);
           ("evening"%string, Fin q3); ("late_night"%string, Fin q4)]
        /\ (q1 == 0)%Q /\ (q2 == 0)%Q /\ (q3 == 0)%Q /\ (q4 == 100)%Q
        /\ Forall (fun h => (minutes_in_hour h only_noon == 0)%Q) [22; 23; 0; 1; 2; 3; 4]
        /\ (minutes_in_hour 12 only_noon == 1)%Q).
Proof.
  split; [vm_compute; reflexivity|]. split.
  - do 4 eexists. split; [vm_compute; reflexivity|].
    repeat split; try (vm_compute; reflexivity).
    intros [H _]. vm_compute in H. apply H. reflexivity.
  - do 4 eexists. split; [vm_compute; reflexivity|].
    repeat split; try (vm_compute; reflexivity).
    repeat constructor.
Qed.

Lemma np_truediv_by_zero (a b : Q) :
  (b == 0)%Q -> np_truediv a b = NaN \/ np_truediv a b = PInf \/ np_truediv a b = NInf.
Proof.
  intros Hb. unfold np_truediv. rewrite (Qeq_bool_true _ _ Hb).
  destruct (Qeq_bool a 0); [tauto|]. destruct (Qlt_bool 0 a); tauto.
Qed.

Lemma np_mul_100_not_finite (x : npfloat) :
  x = NaN \/ x = PInf \/ x = NInf -> np_mul x 100 = x.
Proof. intros [-> | [-> | ->]]; reflexivity. Qed.

Lemma Qsum_nonneg (l : list Q) : Forall (fun q => (0 <= q)%Q) l -> (0 <= Qsum l)%Q.
Proof.
  induction 1 as [|q l Hq _ IH]; simpl; [apply Qle_refl|lra].
Qed.

Lemma group_add_nonneg (k : Z) (m : Q) (acc : series) :
  (0 <= m)%Q -> Forall (fun q => (0 <= q)%Q) (map snd acc) ->
  Forall (fun q => (0 <= q)%Q) (map snd (group_add k m acc)).
Proof.
  intros Hm. induction acc as [|[k' v] acc IH]; simpl; intros Hacc.
  - constructor; [exact Hm|constructor].
  - inversion Hacc as [|? ? Hv Hrest]; subst.
    destruct (k <? k'); [|destruct (k =? k')]; simpl.
    + constructor; [exact Hm|exact Hacc].
    + constructor; [lra|exact Hrest].
    + constructor; [exact Hv|now apply IH].
Qed.

Lemma groupby_hour_sum_nonneg (df : list play_event) :
  (forall e, In e df -> (0 <= minutes_played e)%Q) ->
  Forall (fun q => (0 <= q)%Q) (map snd (groupby_hour_sum df)).
Proof.
  unfold groupby_hour_sum. intros H.
  assert (G : forall acc, Forall (fun q => (0 <= q)%Q) (map snd acc) ->
            Forall (fun q => (0 <= q)%Q)
              (map snd (fold_left (fun a e => group_add (hour_of (ts e)) (minutes_played e) a)
                                  df acc))).
  { induction df as [|e df IH]; intros acc Hacc; simpl; [exact Hacc|].
    apply IH.
    - intros e' He'. apply H. now right.
    - apply group_add_nonneg; [apply H; now left|exact Hacc]. }
  apply G. constructor.
Qed.

Lemma Forall_firstn {A : Type} (P : A -> Prop) (n : nat) (l : list A) :
  Forall P l -> Forall P (firstn n l).
Proof.
  intros H; revert n; induction H as [|x l Hx _ IH]; intros [|n]; simpl;
    constructor; auto.
Qed.

Lemma Forall_skipn {A : Type} (P : A -> Prop) (n : nat) (l : list A) :
  Forall P l -> Forall P (skipn n l).
Proof.
  intros H; revert n; induction H as [|x l Hx Hl IH]; intros [|n]; simpl;
    try constructor; auto.
Qed.

Lemma slice_sum_nonneg (s : series) (a b : nat) :
  Forall (fun q => (0 <= q)%Q) (map snd s) ->
  (0 <= series_sum (firstn a (skipn b s)))%Q.
Proof.
  intros H. unfold series_sum. apply Qsum_nonneg.
  rewrite <- firstn_map, <- skipn_map. now apply Forall_firstn, Forall_skipn.
Qed.

(** With no negative duration and a zero total, every block is empty. *)
Lemma block_minutes_all_zero (s : series) :
  Forall (fun q => (0 <= q)%Q) (map snd s) -> (series_sum s == 0)%Q ->
  Forall (fun b : string * (nat * nat) =>
            (block_minutes s (fst (snd b)) (snd (snd b)) == 0)%Q) time_blocks.
Proof.
  intros Hs Ht. pose proof (block_minutes_cover s) as Hc.
  unfold block_minutes, ninth_bucket, series_slice, series_from, series_upto in *.
  cbn [Nat.ltb Nat.leb Nat.sub] in *.
  pose proof (slice_sum_nonneg s 3 5 Hs). pose proof (slice_sum_nonneg s 8 9 Hs).
  pose proof (slice_sum_nonneg s 5 17 Hs). pose proof (slice_sum_nonneg s 1 8 Hs).
  pose proof (slice_sum_nonneg s 5 0 Hs) as H5. cbn [skipn] in H5.
  assert (H22 : (0 <= series_sum (skipn 22 s))%Q).
  { unfold series_sum. apply Qsum_nonneg. rewrite <- skipn_map. now apply Forall_skipn. }
  unfold time_blocks. repeat constructor; cbn [fst snd Nat.ltb Nat.leb Nat.sub]; lra.
Qed.

(** C7, amended.  When the total of the table is exactly zero the
    aggregation still returns its four entries, and none of them is a
    number: each share is the float quotient of the block's minutes by zero,
    NaN or an infinity, and NaN for all four when no duration is negative.
    No share is 0. *)
Theorem zero_total_gives_undefined_shares (df : list play_event) :
  (total_minutes_played df == 0)%Q ->
  map fst (block_percentages df)
  = ["early_morning"; "work_hours"; "evening"; "late_night"]%string
  /\ Forall (fun bp : string * npfloat =>
               snd bp = NaN \/ snd bp = PInf \/ snd bp = NInf) (block_percentages df)
  /\ ((forall e, In e df -> (0 <= minutes_played e)%Q) ->
      map snd (block_percentages df) = [NaN; NaN; NaN; NaN]).
Proof.
  intros Hz. pose proof (groupby_hour_sum_total df) as Ht. rewrite Hz in Ht.
  split; [reflexivity|]. split.
  - unfold block_percentages. apply Forall_forall. intros bp Hin.
    apply in_map_iff in Hin as [b [<- _]]. cbn [snd].
    match goal with |- context [np_truediv ?a ?b] =>
      pose proof (np_truediv_by_zero a b Ht) as Hd end.
    rewrite (np_mul_100_not_finite _ Hd). exact Hd.
  - intros Hnn.
    pose proof (block_minutes_all_zero _ (groupby_hour_sum_nonneg df Hnn) Ht) as Hb.
    unfold block_percentages, time_blocks in *. cbn [map fst snd] in *.
    repeat match goal with
           | H : Forall _ (_ :: _) |- _ => inversion H; clear H; subst
           end.
    cbn [fst snd] in *.
    unfold np_truediv. rewrite (Qeq_bool_true _ _ Ht).
    repeat match goal with
           | H : (block_minutes _ _ _ == 0)%Q |- _ => rewrite (Qeq_bool_true _ _ H); clear H
           end.
    reflexivity.
Qed.

(** ** Profile classification *)

Lemma Qlt_bool_iff (a b : Q) : Qlt_bool a b = true <-> (a < b)%Q.
Proof.
  unfold Qlt_bool. rewrite negb_true_iff. split.
  - intros H. apply Qnot_le_lt. intros Hle. apply Qle_bool_iff in Hle. congruence.
  - intros H. destruct (Qle_bool b a) eqn:E; [|reflexivity].
    apply Qle_bool_iff in E. exfalso. apply (Qlt_not_le _ _ H E).
Qed.

(** C4.  The label is the one an ordered rule list gives, the first rule
    whose guard holds winning: energy > 0.7 and danceability > 0.6 for
    Party Starter, else acousticness > 0.6 and instrumentalness > 0.4 for
    Soul Searcher, else valence > 0.6 and energy > 0.5 for Mood Lifter, else
    speechiness > 0.4 for Lyric Lover, else Eclectic Explorer; every six
    averaged dimensions, NaN included, get exactly one label. *)
Theorem classifier_is_a_total_ordered_rule_list (f : averaged_features) :
  let r1 := np_gt (avg_energy f) 0.7 && np_gt (avg_danceability f) 0.6 in
  let r2 := np_gt (avg_acousticness f) 0.6 && np_gt (avg_instrumentalness f) 0.4 in
  let r3 := np_gt (avg_valence f) 0.6 && np_gt (avg_energy f) 0.5 in
  let r4 := np_gt (avg_speechiness f) 0.4 in
  classify f = first_match profile_rules EclecticExplorer f
  /\ (classify f = PartyStarter <-> r1 = true)
  /\ (classify f = SoulSearcher <-> r1 = false /\ r2 = true)
  /\ (classify f = MoodLifter <-> r1 = false /\ r2 = false /\ r3 = true)
  /\ (classify f = LyricLover <-> r1 = false /\ r2 = false /\ r3 = false /\ r4 = true)
  /\ (classify f = EclecticExplorer
      <-> r1 = false /\ r2 = false /\ r3 = false /\ r4 = false)
  /\ (exists label, classify f = label /\ forall label', classify f = label' -> label' = label)
  /\ (forall (q c : Q), np_gt (Fin q) c = true <-> (c < q)%Q)
  /\ (forall c : Q, np_gt NaN c = false).
Proof.
  intros r1 r2 r3 r4. split; [reflexivity|].
  assert (Hrules :
    (classify f = PartyStarter <-> r1 = true)
    /\ (classify f = SoulSearcher <-> r1 = false /\ r2 = true)
    /\ (classify f = MoodLifter <-> r1 = false /\ r2 = false /\ r3 = true)
    /\ (classify f = LyricLover <-> r1 = false /\ r2 = false /\ r3 = false /\ r4 = true)
    /\ (classify f = EclecticExplorer
        <-> r1 = false /\ r2 = false /\ r3 = false /\ r4 = false)).
  { unfold classify. fold r1 r2 r3 r4.
    destruct r1, r2, r3, r4; cbn [andb negb];
      (repeat split; try reflexivity; try discriminate; try tauto;
       try (intros; intuition discriminate)). }
  destruct Hrules as [H1 [H2 [H3 [H4 H5]]]].
  repeat (split; [assumption|]).
  split; [exists (classify f); split; [reflexivity|congruence]|].
  split; [intros; apply Qlt_bool_iff|reflexivity].
Qed.

(** ** Enrichment and the averaged dimensions *)

Lemma existsb_pyval_eqb (x : pyval) (l : list pyval) :
  existsb (pyval_eqb x) l = true <-> In x l.
Proof.
  rewrite existsb_exists. split.
  - intros [y [Hin Heq]]. apply pyval_eqb_eq in Heq. now subst.
  - intros Hin. exists x. split; [exact Hin|apply pyval_eqb_refl].
Qed.

Lemma unique_from_in (seen l : list pyval) (x : pyval) :
  In x (unique_from seen l) <-> In x l /\ ~ In x seen.
Proof.
  revert seen; induction l as [|y l IH]; intros seen; simpl; [tauto|].
  destruct (existsb (pyval_eqb y) seen) eqn:E.
  - apply existsb_pyval_eqb in E. rewrite IH. intuition congruence.
  - assert (Hy : ~ In y seen) by (rewrite <- existsb_pyval_eqb; congruence).
    simpl. rewrite IH. simpl.
    destruct (pyval_eqb y x) eqn:Eyx.
    + apply pyval_eqb_eq in Eyx. subst x. tauto.
    + assert (y <> x) by (intros Heq; apply pyval_eqb_eq in Heq; congruence). tauto.
Qed.

Lemma unique_from_nodup (seen l : list pyval) : NoDup (unique_from seen l).
Proof.
  revert seen; induction l as [|y l IH]; intros seen; simpl; [constructor|].
  destruct (existsb (pyval_eqb y) seen); [apply IH|].
  constructor; [|apply IH]. rewrite unique_from_in. simpl. tauto.
Qed.

Lemma unique_in (l : list pyval) (x : pyval) : In x (unique l) <-> In x l.
Proof. unfold unique. rewrite unique_from_in. simpl. tauto. Qed.

Lemma flat_map_singletons {A B : Type} (g : A -> list B) (h : A -> B) (l : list A) :
  (forall a, In a l -> g a = [h a]) -> flat_map g l = map h l.
Proof.
  induction l as [|a l IH]; simpl; intros H; [reflexivity|].
  rewrite (H a) by now left. simpl. f_equal. apply IH. intros; apply H; now right.
Qed.

Section EnrichmentProperties.

Variable rng : Type.
Variable np_seed : Z -> rng.
Variable random_sample : rng -> Q * rng.

Local Abbreviation synth := (synthesize np_seed random_sample).
Local Abbreviation synth_all := (synthesize_all np_seed random_sample).
Local Abbreviation enrich := (add_audio_features np_seed random_sample).
Local Abbreviation played := (played_vectors np_seed random_sample).

Lemma merge_keys_absent (us : list pyval) (u : pyval) :
  ~ In u us ->
  filter (fun f => pyval_eqb u (PyStr (f_uri f))) (synth_all us) = [].
Proof.
  induction us as [|u' us IH]; intros Hn; [reflexivity|].
  cbn [synthesize_all]. simpl in Hn.
  destruct (synth u') as [f|] eqn:E; [|apply IH; tauto].
  cbn [filter]. destruct (pyval_eqb u (PyStr (f_uri f))) eqn:Eq.
  - apply pyval_eqb_eq in Eq. destruct (synthesize_uri _ _ _ _ _ E) as [Hu _].
    exfalso. apply Hn. left. congruence.
  - apply IH. tauto.
Qed.

(** [unique] makes the keys of [features_df] distinct, so a row of the
    table matches at most one row of it: its own track's. *)
Lemma merge_keys_present (us : list pyval) (u : pyval) :
  NoDup us -> In u us ->
  filter (fun f => pyval_eqb u (PyStr (f_uri f))) (synth_all us)
  = match synth u with Some f => [f] | None => [] end.
Proof.
  induction 1 as [|u' us Hnin Hnd IH]; intros Hin; [destruct Hin|].
  cbn [synthesize_all]. destruct (synth u') as [f|] eqn:E.
  - cbn [filter]. destruct (pyval_eqb u (PyStr (f_uri f))) eqn:Eq.
    + apply pyval_eqb_eq in Eq. destruct (synthesize_uri _ _ _ _ _ E) as [Hu _].
      subst u u'.
      rewrite E, merge_keys_absent by exact Hnin. reflexivity.
    + apply IH. destruct Hin as [<-|Hin]; [|exact Hin].
      destruct (synthesize_uri _ _ _ _ _ E) as [Hu _].
      rewrite Hu in Eq at 1. rewrite pyval_eqb_refl in Eq. discriminate.
  - destruct Hin as [<-|Hin]; [|now apply IH].
    rewrite E. now apply merge_keys_absent.
Qed.

(** The frame [add_audio_features] returns has the rows of the input, each
    once and in order, each with the vector of its own track (null when
    the track has none). *)
Lemma add_audio_features_rows (g0 : rng) (df : list play_event) :
  fst (enrich g0 df) = map (fun e => (e, synth (spotify_track_uri e))) df.
Proof.
  unfold add_audio_features. rewrite synthesis_loop_features.
  set (us := unique (map spotify_track_uri df)).
  assert (Hin : forall e, In e df -> In (spotify_track_uri e) us).
  { intros e He. apply unique_in. now apply in_map. }
  assert (Hnd : NoDup us) by apply unique_from_nodup.
  destruct (synth_all us) as [|f0 fs] eqn:Efs.
  - cbn [fst]. apply map_ext_in. intros e He. f_equal.
    destruct (synth (spotify_track_uri e)) as [f|] eqn:E; [|reflexivity].
    assert (In f (synth_all us)) by (apply in_synthesize_all; eauto).
    rewrite Efs in *. contradiction.
  - cbn [fst]. rewrite <- Efs. unfold merge_left. apply flat_map_singletons.
    intros e He. rewrite (merge_keys_present us _ Hnd (Hin e He)).
    destruct (synth (spotify_track_uri e)); reflexivity.
Qed.

Lemma present_values_rows (col : feature -> Q) (df : list play_event) :
  flat_map (fun r : enriched_row => match snd r with Some f => [col f] | None => [] end)
           (map (fun e => (e, synth (spotify_track_uri e))) df)
  = map col (played df).
Proof.
  unfold played_vectors. induction df as [|e df IH]; [reflexivity|].
  cbn [map flat_map snd]. rewrite IH, map_app.
  destruct (synth (spotify_track_uri e)); reflexivity.
Qed.

Lemma played_vectors_app (a b : list play_event) : played (a ++ b) = played a ++ played b.
Proof. unfold played_vectors. apply flat_map_app. Qed.

Lemma played_vectors_repeat (e : play_event) (k : nat) (f : feature) :
  synth (spotify_track_uri e) = Some f -> played (repeat e k) = repeat f k.
Proof.
  intros H. unfold played_vectors. induction k as [|k IH]; [reflexivity|].
  cbn [repeat flat_map]. rewrite H, IH. reflexivity.
Qed.

(** C10.  The table that [analyze_music_profile] averages has one row per
    play event of the input, in order, each carrying the vector of its own
    track or nulls when the track has none; the mean of a dimension is the
    sum over the rows that carry a vector divided by the number of those
    rows, rows with nulls counting in neither; and a track played [k]
    times enters the sum and the count [k] times. *)
Theorem profile_averages_over_play_events
  (g0 : rng) (df : list play_event) (col : feature -> Q) :
  let table := fst (enrich g0 df) in
  map fst table = df
  /\ Forall (fun r : enriched_row => snd r = synth (spotify_track_uri (fst r))) table
  /\ column_mean col table
     = np_truediv (Qsum (map col (played df)))
                  (inject_Z (Z.of_nat (List.length (played df))))
  /\ fst (analyze_music_profile table)
     = classify (mkAveraged (column_mean danceability table) (column_mean energy table)
                            (column_mean valence table) (column_mean speechiness table)
                            (column_mean acousticness table)
                            (column_mean instrumentalness table))
  /\ (forall e k rest f,
        synth (spotify_track_uri e) = Some f ->
        played (repeat e k ++ rest) = repeat f k ++ played rest
        /\ (Qsum (map col (played (repeat e k ++ rest)))
            == inject_Z (Z.of_nat k) * col f + Qsum (map col (played rest)))%Q
        /\ List.length (played (repeat e k ++ rest)) = (k + List.length (played rest))%nat)
  /\ (forall e rest,
        synth (spotify_track_uri e) = None -> played (e :: rest) = played rest).
Proof.
  intros table. subst table. rewrite add_audio_features_rows.
  split; [|split; [|split; [|split; [|split]]]].
  - rewrite map_map. cbn [fst]. apply map_id.
  - apply Forall_forall. intros r Hr. apply in_map_iff in Hr as [e [<- _]]. reflexivity.
  - unfold column_mean. rewrite present_values_rows, length_map. reflexivity.
  - reflexivity.
  - intros e k rest f Hf.
    rewrite played_vectors_app, (played_vectors_repeat e k f Hf).
    split; [reflexivity|]. split.
    + rewrite map_app, Qsum_app. apply Qplus_inj_r.
      clear. induction k as [|k IH]; [simpl; ring|].
      cbn [repeat map Qsum fold_right]. fold (Qsum (map col (repeat f k))).
      rewrite IH, Nat2Z.inj_succ. unfold Z.succ. rewrite inject_Z_plus. ring.
    + rewrite length_app, repeat_length. reflexivity.
  - intros e rest Hn. unfold played_vectors. cbn [flat_map]. now rewrite Hn.
Qed.

End EnrichmentProperties.

(** ** The numpy generator satisfies the interface *)

Lemma mt19937_next_range (s : MT19937.state) :
  0 <= fst (MT19937.mt19937_next s) < 2 ^ 32.
Proof.
  unfold MT19937.mt19937_next. cbn [fst]. unfold MT19937.temper.
  cbv zeta. unfold MT19937.u32 at 1. apply Z.mod_pos_bound. lia.
Qed.

Lemma mt19937_next_double_unit (s : MT19937.state) :
  (0 <= fst (MT19937.next_double s) /\ fst (MT19937.next_double s) < 1)%Q.
Proof.
  unfold MT19937.next_double.
  pose proof (mt19937_next_range s) as Hx.
  destruct (MT19937.mt19937_next s) as [x s1]. cbn [fst] in Hx.
  pose proof (mt19937_next_range s1) as Hy.
  destruct (MT19937.mt19937_next s1) as [y s2]. cbn [fst] in Hy |- *.
  rewrite !Z.shiftr_div_pow2 by lia.
  assert (Ha : 0 <= x / 2 ^ 5 < 2 ^ 27)
    by (split; [apply Z.div_pos; lia|apply Z.div_lt_upper_bound; lia]).
  assert (Hb : 0 <= y / 2 ^ 6 < 2 ^ 26)
    by (split; [apply Z.div_pos; lia|apply Z.div_lt_upper_bound; lia]).
  unfold Qle, Qlt. cbn [Qnum Qden]. lia.
Qed.

(** ** The statements at concrete inputs, with numpy's generator and the
    export timestamp format *)

Lemma synthesis_depends_only_on_track_id_witness :
  track_a <> []
  /\ In (PyStr track_a) [PyStr track_a]
  /\ In (PyStr track_a) [PyNone; PyStr track_b; PyStr []; PyStr track_a]
  /\ features_row track_a
       (audio_features
          (synthesis_loop MT19937.mt19937_seed MT19937.next_double
                          (MT19937.mt19937_seed 0) [PyStr track_a]))
     = features_row track_a
         (audio_features
            (synthesis_loop MT19937.mt19937_seed MT19937.next_double
                            (MT19937.mt19937_seed 42)
                            [PyNone; PyStr track_b; PyStr []; PyStr track_a])).
Proof.
  assert (H0 : track_a <> []) by (vm_compute; discriminate).
  assert (H1 : In (PyStr track_a) [PyStr track_a]) by (left; reflexivity).
  assert (H2 : In (PyStr track_a) [PyNone; PyStr track_b; PyStr []; PyStr track_a])
    by (right; right; right; left; reflexivity).
  split; [exact H0|]. split; [exact H1|]. split; [exact H2|].
  exact (proj1 (synthesis_depends_only_on_track_id
                  MT19937.state MT19937.mt19937_seed MT19937.next_double
                  (MT19937.mt19937_seed 0) (MT19937.mt19937_seed 42)
                  [PyStr track_a] [PyNone; PyStr track_b; PyStr []; PyStr track_a]
                  track_a H0 H1 H2)).
Defined.

Lemma track_unicode_scalar : Forall scalar_value track_unicode.
Proof. repeat constructor; unfold scalar_value; lia. Qed.

Lemma synthesized_dimensions_within_ranges_witness :
  (forall g, (0 <= fst (MT19937.next_double g) /\ fst (MT19937.next_double g) < 1)%Q)
  /\ (exists f,
        features_row track_unicode
          (audio_features
             (synthesis_loop MT19937.mt19937_seed MT19937.next_double
                             (MT19937.mt19937_seed 7)
                             [PyStr []; PyStr track_unicode; PyStr track_surrogate]))
        = Some f
        /\ f_uri f = track_unicode /\ in_documented_ranges f)
  /\ features_row []
       (audio_features
          (synthesis_loop MT19937.mt19937_seed MT19937.next_double
                          (MT19937.mt19937_seed 7)
                          [PyStr []; PyStr track_unicode; PyStr track_surrogate]))
     = None.
Proof.
  split; [exact mt19937_next_double_unit|].
  destruct (synthesized_dimensions_within_ranges
              MT19937.state MT19937.mt19937_seed MT19937.next_double
              mt19937_next_double_unit (MT19937.mt19937_seed 7)
              [PyStr []; PyStr track_unicode; PyStr track_surrogate]) as [_ [Hempty Hall]].
  split; [|exact Hempty].
  apply Hall.
  - right; left; reflexivity.
  - discriminate.
  - exact track_unicode_scalar.
Defined.


Example corrupt_file_is_named :
  process_files ExportTimestamp.parse [example_file; corrupt_file; bad_timestamp_file]
  = Returned None
      ["Error reading StreamingHistory1.json. Please make sure it's a valid JSON file."%string]
  /\ reported_source [example_file; corrupt_file; bad_timestamp_file]
       (process_files ExportTimestamp.parse [example_file; corrupt_file; bad_timestamp_file])
     = Some "StreamingHistory1.json"%string.
Proof. split; vm_compute; reflexivity. Qed.



Lemma zero_total_gives_undefined_shares_witness :
  (total_minutes_played nothing_played == 0)%Q
  /\ map snd (block_percentages nothing_played) = [NaN; NaN; NaN; NaN].
Proof.
  assert (H : (total_minutes_played nothing_played == 0)%Q) by (vm_compute; reflexivity).
  split; [exact H|].
  apply (zero_total_gives_undefined_shares nothing_played H).
  intros e [<-|[]]. vm_compute. discriminate.
Defined.

(** C7 as stated fails on a table of one event with no playing time: the
    total is zero and every share is NaN, none is 0. *)
Lemma zero_total_shares_are_not_zero :
  (total_minutes_played nothing_played == 0)%Q
  /\ block_percentages nothing_played
     = [("early_morning"%string, NaN); ("work_hours"%string, NaN);
        ("evening"%string, NaN); ("late_night"%string, NaN)]
  /\ ~ Forall (fun bp : string * npfloat => exists q, snd bp = Fin q /\ (q == 0)%Q)
              (block_percentages nothing_played).
Proof.
  split; [vm_compute; reflexivity|]. split; [vm_compute; reflexivity|].
  intros H. vm_compute in H. inversion H as [|? ? [q [Hq _]] _]. discriminate.
Qed.

(** ** The example scenario of the specification *)

Example example_scenario_table :
  process_files ExportTimestamp.parse [example_file] = Returned (Some example_table) [].
Proof. vm_compute. reflexivity. Qed.

Example example_scenario_hours :
  exists at8 at23,
    nth_error (hourly_profile example_table) 8 = Some (8, at8)
    /\ nth_error (hourly_profile example_table) 23 = Some (23, at23)
    /\ (at8 == 25)%Q /\ (at23 == 100 / 3)%Q
    /\ (total_minutes_played example_table == 175 / 3)%Q.
Proof.
  do 2 eexists. split; [vm_compute; reflexivity|]. split; [vm_compute; reflexivity|].
  repeat split; vm_compute; reflexivity.
Qed.

(** Track A was played twice and track B once: the mean over the rows
    weighs A twice, the mean over the two tracks would not, and the two
    differ. *)
Example row_mean_is_not_track_mean :
  exists a b row_mean track_mean,
    synthesize MT19937.mt19937_seed MT19937.next_double (PyStr track_a) = Some a
    /\ synthesize MT19937.mt19937_seed MT19937.next_double (PyStr track_b) = Some b
    /\ column_mean danceability
         (fst (add_audio_features MT19937.mt19937_seed MT19937.next_double
                                  (MT19937.mt19937_seed 0) example_table))
       = Fin row_mean
    /\ column_mean_per_track danceability [a; b] = Fin track_mean
    /\ (row_mean == (2 * danceability a + danceability b) / 3)%Q
    /\ (track_mean == (danceability a + danceability b) / 2)%Q
    /\ ~ (row_mean == track_mean)%Q.
Proof.
  do 4 eexists. split; [vm_compute; reflexivity|]. split; [vm_compute; reflexivity|].
  split; [vm_compute; reflexivity|]. split; [vm_compute; reflexivity|].
  split; [vm_compute; reflexivity|]. split; [vm_compute; reflexivity|].
  intros H. vm_compute in H. discriminate.
Qed.

(** * Further properties *)

(** ** Seeds *)

Lemma fold_bytes_from (bs : list Z) (acc : Z) :
  fold_left (fun a b => a * 256 + b) bs acc
  = acc * 256 ^ Z.of_nat (List.length bs) + int_from_bytes_big bs.
Proof.
  unfold int_from_bytes_big. revert acc.
  induction bs as [|b bs IH]; intros acc.
  - simpl. lia.
  - cbn [fold_left List.length]. rewrite IH, (IH (0 * 256 + b)).
    rewrite Nat2Z.inj_succ, Z.pow_succ_r by lia. ring.
Qed.

Lemma int_from_bytes_big_app (pre tail : list Z) :
  int_from_bytes_big (pre ++ tail)
  = int_from_bytes_big pre * 256 ^ Z.of_nat (List.length tail) + int_from_bytes_big tail.
Proof.
  unfold int_from_bytes_big at 1. rewrite fold_left_app.
  fold (int_from_bytes_big pre). apply fold_bytes_from.
Qed.

Lemma seed_of_bytes_tail (pre tail : list Z) :
  List.length tail = 4%nat -> seed_of_bytes (pre ++ tail) = seed_of_bytes tail.
Proof.
  intros Hlen. unfold seed_of_bytes. rewrite int_from_bytes_big_app, Hlen.
  change (256 ^ Z.of_nat 4) with (2 ^ 32).
  rewrite Z.add_comm, Z_mod_plus_full. reflexivity.
Qed.

(** X1.  The seed of line 71 is read off the last four bytes of the encoded id:
    whatever precedes them is multiplied by 2^32 and vanishes in the
    reduction. *)
Theorem seed_depends_on_last_four_bytes (pre tail : list Z) :
  List.length tail = 4%nat -> seed_of_bytes (pre ++ tail) = seed_of_bytes tail.
Proof. apply seed_of_bytes_tail. Qed.

Lemma seed_depends_on_last_four_bytes_witness :
  List.length [75; 85; 81; 67] = 4%nat
  /\ seed_of_bytes ([115; 112; 111; 116] ++ [75; 85; 81; 67]) = seed_of_bytes [75; 85; 81; 67].
Proof.
  split; [reflexivity|].
  exact (seed_depends_on_last_four_bytes [115; 112; 111; 116] [75; 85; 81; 67] eq_refl).
Defined.

Section MoreSynthesisProperties.

Variable rng : Type.
Variable np_seed : Z -> rng.
Variable random_sample : rng -> Q * rng.

Local Abbreviation synth := (synthesize np_seed random_sample).
Local Abbreviation synth_all := (synthesize_all np_seed random_sample).
Local Abbreviation run_loop := (synthesis_loop np_seed random_sample).
Local Abbreviation body := (loop_body np_seed random_sample).
Local Abbreviation draw := (draw_feature random_sample).
Local Abbreviation enrich := (add_audio_features np_seed random_sample).

Lemma draw_feature_columns (s1 s2 : pystr) (g : rng) :
  merged_columns (fst (draw s1 g)) = merged_columns (fst (draw s2 g)).
Proof.
  unfold draw_feature, np_random_uniform.
  repeat match goal with |- context [random_sample ?x] => destruct (random_sample x) end.
  reflexivity.
Qed.

(** X2.  Two ids whose encodings end in the same four bytes get the same seven
    values: the rest of the id plays no part. *)
Theorem ids_sharing_last_four_bytes_share_features
  (s1 s2 : pystr) (pre1 pre2 tail : list Z) :
  s1 <> [] -> s2 <> [] ->
  str_encode s1 = Some (pre1 ++ tail) -> str_encode s2 = Some (pre2 ++ tail) ->
  List.length tail = 4%nat ->
  exists f1 f2,
    synth (PyStr s1) = Some f1 /\ synth (PyStr s2) = Some f2
    /\ merged_columns f1 = merged_columns f2.
Proof.
  intros H1 H2 E1 E2 Hlen.
  rewrite !synthesize_seeded.
  destruct s1 as [|c1 r1]; [congruence|]. destruct s2 as [|c2 r2]; [congruence|].
  rewrite E1, E2.
  do 2 eexists. split; [reflexivity|]. split; [reflexivity|].
  rewrite !(seed_of_bytes_tail _ tail Hlen).
  apply draw_feature_columns.
Qed.

(** ** The loop accounts for every element of the batch *)

Lemma loop_body_warned (st : loop_state rng) (u : pyval) :
  warned (body st u) = warned st ++ (if is_warned u then [u] else []).
Proof.
  unfold loop_body, is_warned, treatment_of.
  destruct u as [|[|c r]|n]; cbn [truthy isinstance_str andb];
    try (now rewrite app_nil_r).
  - destruct (str_encode (c :: r)) as [bs|]; [|reflexivity].
    rewrite np_random_seed_accepts.
    destruct (draw (c :: r) (np_seed (seed_of_bytes bs))). cbn [warned].
    now rewrite app_nil_r.
  - destruct (negb (n =? 0)); cbn [andb]; now rewrite app_nil_r.
Qed.

Lemma fold_loop_warned (us : list pyval) (st : loop_state rng) :
  warned (fold_left body us st) = warned st ++ filter is_warned us.
Proof.
  revert st; induction us as [|u us IH]; intros st; cbn [fold_left filter].
  - now rewrite app_nil_r.
  - rewrite IH, loop_body_warned. destruct (is_warned u); cbn [app].
    + rewrite <- app_assoc. reflexivity.
    + rewrite app_nil_r. reflexivity.
Qed.

Lemma synthesize_treatment (u : pyval) :
  is_synthesized u = true <-> exists f, synth u = Some f.
Proof.
  unfold is_synthesized, treatment_of.
  destruct u as [|[|c r]|n]; try (split; [discriminate|intros [f Hf]; discriminate]).
  rewrite synthesize_seeded.
  destruct (str_encode (c :: r)); split; eauto; try discriminate.
  intros [f Hf]. discriminate.
Qed.

Lemma synthesize_all_ids (us : list pyval) :
  map (fun f => PyStr (f_uri f)) (synth_all us) = filter is_synthesized us.
Proof.
  induction us as [|u us IH]; [reflexivity|].
  cbn [synthesize_all filter].
  destruct (synth u) as [f|] eqn:E.
  - assert (Hs : is_synthesized u = true) by (apply synthesize_treatment; eauto).
    rewrite Hs. cbn [map]. rewrite IH.
    destruct (synthesize_uri _ _ _ _ _ E) as [-> _]. reflexivity.
  - destruct (is_synthesized u) eqn:Hs; [|exact IH].
    apply synthesize_treatment in Hs as [f Hf]. congruence.
Qed.

(** X3.  After the loop, the ids of the rows of [features_df] are the non-empty
    strings of the batch that encode, in batch order; the warnings are the
    non-empty strings that do not encode, in batch order; null, the empty
    string and non-strings leave no trace.  A warning never stops the rows
    of the ids that follow it. *)
Theorem loop_accounts_for_every_id (g0 : rng) (us : list pyval) :
  map (fun f => PyStr (f_uri f)) (audio_features (run_loop g0 us)) = filter is_synthesized us
  /\ warned (run_loop g0 us) = filter is_warned us
  /\ (List.length (audio_features (run_loop g0 us)) + List.length (warned (run_loop g0 us))
      + List.length (filter (fun u => match treatment_of u with Skipped => true | _ => false end)
                            us)
      = List.length us)%nat.
Proof.
  rewrite synthesis_loop_features.
  assert (Hw : warned (run_loop g0 us) = filter is_warned us).
  { unfold synthesis_loop. rewrite fold_loop_warned. reflexivity. }
  split; [apply synthesize_all_ids|]. split; [exact Hw|].
  rewrite Hw, <- (length_map (fun f => PyStr (f_uri f))), synthesize_all_ids.
  unfold is_synthesized, is_warned. clear.
  induction us as [|u us IH]; [reflexivity|].
  cbn [filter]. destruct (treatment_of u); cbn [List.length]; lia.
Qed.

(** ** The flag and the frame that [add_audio_features] returns *)

Lemma flag_true_iff (g0 : rng) (df : list play_event) :
  snd (enrich g0 df) = true
  <-> exists e, In e df /\ is_synthesized (spotify_track_uri e) = true.
Proof.
  unfold add_audio_features. rewrite synthesis_loop_features.
  destruct (synth_all (unique (map spotify_track_uri df))) as [|f fs] eqn:E; cbn [snd].
  - split; [discriminate|]. intros [e [He Hs]].
    apply synthesize_treatment in Hs as [f Hf].
    assert (Hin : In f (synth_all (unique (map spotify_track_uri df)))).
    { apply in_synthesize_all. exists (spotify_track_uri e).
      split; [apply unique_in; now apply in_map|exact Hf]. }
    rewrite E in Hin. destruct Hin.
  - split; [|reflexivity]. intros _.
    assert (Hin : In f (synth_all (unique (map spotify_track_uri df))))
      by (rewrite E; now left).
    apply in_synthesize_all in Hin as [u [Hu Hf]].
    apply unique_in, in_map_iff in Hu as [e [<- He]].
    exists e. split; [exact He|]. apply synthesize_treatment. eauto.
Qed.

(** X4.  [audio_features_added] is set exactly when some row of the table has an
    id that can be synthesized; when it is not set, the frame comes back
    with no feature at all; either way the frame has as many rows as the
    table. *)
Theorem flag_set_iff_some_track_synthesized (g0 : rng) (df : list play_event) :
  (snd (enrich g0 df) = true
   <-> exists e, In e df /\ is_synthesized (spotify_track_uri e) = true)
  /\ (snd (enrich g0 df) = false -> fst (enrich g0 df) = map (fun e => (e, None)) df)
  /\ List.length (fst (enrich g0 df)) = List.length df.
Proof.
  split; [apply flag_true_iff|split].
  - unfold add_audio_features.
    destruct (audio_features (run_loop g0 (unique (map spotify_track_uri df))));
      cbn [fst snd]; [reflexivity|discriminate].
  - rewrite add_audio_features_rows. apply length_map.
Qed.

End MoreSynthesisProperties.

(** ** Ingestion: empty uploads and the rows of the table *)

Section MoreIngestionProperties.

Variable parse_datetime : string -> option Z.

Local Abbreviation ingest := (process_files parse_datetime).

Lemma load_files_records (files : list uploaded_file) :
  Forall loads_records files ->
  load_files files [] = inl (flat_map file_records files).
Proof. intros H. apply (load_files_loaded files [] H). Qed.

(** X5.  When the files hold no record between them (no file at all, or only
    empty lists), the call returns [None] with the message of line 42 and
    the timestamp parser is never reached. *)
Theorem no_record_no_table (files : list uploaded_file) :
  Forall (fun f => json_load f = Loaded []) files ->
  ingest files = Returned None [no_valid_data].
Proof.
  intros H. unfold process_files.
  assert (Hok : Forall loads_records files).
  { eapply Forall_impl; [|exact H]. intros f Hf. now exists []. }
  rewrite (load_files_records files Hok), (loads_records_no_strays files Hok).
  assert (E : flat_map file_records files = []).
  { induction H as [|f files Hf _ IH]; [reflexivity|].
    cbn [flat_map]. unfold file_records at 1. rewrite Hf. apply IH.
    now inversion Hok. }
  now rewrite E.
Qed.

Lemma build_frame_Forall2 (all_data : list raw_record) (tss : list Z) :
  map Some tss = map parse_datetime (map r_ts all_data) ->
  Forall2 (fun (e : play_event) (r : raw_record) =>
             parse_datetime (r_ts r) = Some (ts e)
             /\ ms_played e = r_ms_played r
             /\ minutes_played e = (inject_Z (r_ms_played r) / inject_Z 60000)%Q
             /\ spotify_track_uri e = r_spotify_track_uri r)
          (build_frame all_data tss) all_data.
Proof.
  unfold build_frame.
  revert tss; induction all_data as [|r all_data IH]; intros [|t tss] Hm;
    try discriminate; cbn [combine map]; [constructor|].
  cbn [map] in Hm. injection Hm as Ht Hm.
  constructor; [|now apply IH].
  cbn [fst snd ts ms_played minutes_played spotify_track_uri].
  repeat split. now symmetry.
Qed.

(** X6.  When every file parses and every timestamp parses, the table has the
    records of the files in upload order, each exactly once: the row of a
    record holds its parsed timestamp, its [ms_played], that number divided
    by 60000 as [minutes_played] (negative durations included) and its
    track id. *)
Theorem table_rows_are_the_records (files : list uploaded_file) :
  Forall loads_records files ->
  flat_map file_records files <> [] ->
  Forall (fun r => parse_datetime (r_ts r) <> None) (flat_map file_records files) ->
  exists df,
    ingest files = Returned (Some df) []
    /\ Forall2 (fun (e : play_event) (r : raw_record) =>
                  parse_datetime (r_ts r) = Some (ts e)
                  /\ ms_played e = r_ms_played r
                  /\ minutes_played e = (inject_Z (r_ms_played r) / inject_Z 60000)%Q
                  /\ spotify_track_uri e = r_spotify_track_uri r)
               df (flat_map file_records files).
Proof.
  intros Hok Hne Hall. unfold process_files.
  rewrite (load_files_records files Hok), (loads_records_no_strays files Hok).
  set (all_data := flat_map file_records files) in *.
  assert (Hcol : Forall (fun s => parse_datetime s <> None) (map r_ts all_data)).
  { apply Forall_forall. intros s Hs. apply in_map_iff in Hs as [r [<- Hr]].
    rewrite Forall_forall in Hall. now apply Hall. }
  destruct (to_datetime_converts parse_datetime (map r_ts all_data) 0 Hcol) as [tss [Hc Hm]].
  destruct all_data as [|r0 rest] eqn:E; [congruence|]. rewrite Hc.
  eexists. split; [reflexivity|]. now apply build_frame_Forall2.
Qed.

End MoreIngestionProperties.

(** ** The index of [hourly_stats] and the totals *)

Lemma group_add_key_in (k : Z) (m : Q) (acc : series) (x : Z) :
  In x (map fst (group_add k m acc)) <-> x = k \/ In x (map fst acc).
Proof.
  split; [apply group_add_keys|].
  induction acc as [|[k' v] acc IH]; simpl; [intuition congruence|].
  destruct (k <? k') eqn:E1; [|destruct (k =? k') eqn:E2]; simpl.
  - intuition congruence.
  - apply Z.eqb_eq in E2. intuition congruence.
  - intuition congruence.
Qed.

Lemma groupby_hour_sum_keys (df : list play_event) (h : Z) :
  In h (map fst (groupby_hour_sum df)) <-> exists e, In e df /\ hour_of (ts e) = h.
Proof.
  unfold groupby_hour_sum.
  assert (G : forall acc,
            In h (map fst (fold_left
                             (fun a e => group_add (hour_of (ts e)) (minutes_played e) a)
                             df acc))
            <-> In h (map fst acc) \/ exists e, In e df /\ hour_of (ts e) = h).
  { induction df as [|e df IH]; intros acc; cbn [fold_left].
    - split; [tauto|]. intros [H|[e [[] _]]]. exact H.
    - rewrite IH, group_add_key_in. split.
      + intros [[->|H]|[e' [He' Hh]]].
        * right. exists e. split; [now left|reflexivity].
        * now left.
        * right. exists e'. split; [now right|exact Hh].
      + intros [H|[e' [[<-|He'] Hh]]].
        * left; now right.
        * left; left. now symmetry.
        * right. exists e'. tauto. }
  rewrite G. simpl. tauto.
Qed.

Lemma sorted_bounded_length (l : list Z) (a b : Z) :
  StronglySorted Z.lt l -> Forall (fun x => a <= x < b) l ->
  Z.of_nat (List.length l) <= Z.max 0 (b - a).
Proof.
  intros Hs; revert a; induction Hs as [|x l Hs IH Hall]; intros a Hb; [simpl; lia|].
  inversion Hb as [|? ? Hx Hl]; subst.
  assert (Hl' : Forall (fun y => x + 1 <= y < b) l).
  { rewrite Forall_forall in *. intros y Hy. specialize (Hall y Hy). specialize (Hl y Hy). lia. }
  specialize (IH (x + 1) Hl'). cbn [List.length]. lia.
Qed.

(** X7.  [hourly_stats] has one entry per hour in which something was played,
    in increasing hour order and never one hour twice; so it has at most 24
    entries, and fewer whenever some hour of the day has no event. *)
Theorem hourly_stats_index (df : list play_event) :
  StronglySorted Z.lt (map fst (groupby_hour_sum df))
  /\ (forall h, In h (map fst (groupby_hour_sum df))
                <-> exists e, In e df /\ hour_of (ts e) = h)
  /\ (List.length (groupby_hour_sum df) <= 24)%nat
  /\ Forall (fun kv : Z * Q => (snd kv == minutes_in_hour (fst kv) df)%Q)
            (groupby_hour_sum df).
Proof.
  pose proof (groupby_hour_sum_sorted df) as Hs.
  split; [exact Hs|]. split; [apply groupby_hour_sum_keys|]. split.
  - assert (Hb : Forall (fun x => 0 <= x < 24) (map fst (groupby_hour_sum df))).
    { apply Forall_forall. intros h Hh. apply groupby_hour_sum_keys in Hh as [e [_ <-]].
      apply hour_of_range. }
    pose proof (sorted_bounded_length _ 0 24 Hs Hb) as H. rewrite length_map in H. lia.
  - apply Forall_forall. intros [k v] Hin. cbn [fst snd].
    rewrite <- groupby_hour_sum_held. unfold held_at.
    destruct (sorted_filter_label k (groupby_hour_sum df) Hs) as [E|[v' E]].
    + assert (Hf : In (k, v) (filter (fun kv : Z * Q => k =? fst kv) (groupby_hour_sum df))).
      { apply filter_In. split; [exact Hin|]. cbn [fst]. apply Z.eqb_refl. }
      rewrite E in Hf. destruct Hf.
    + assert (Hf : In (k, v) (filter (fun kv : Z * Q => k =? fst kv) (groupby_hour_sum df))).
      { apply filter_In. split; [exact Hin|]. cbn [fst]. apply Z.eqb_refl. }
      rewrite E in Hf |- *. destruct Hf as [Hf|[]]. injection Hf as ->. simpl. ring.
Qed.

Lemma Qsum_map_ext {A : Type} (f g : A -> Q) (l : list A) :
  (forall x, In x l -> (f x == g x)%Q) -> (Qsum (map f l) == Qsum (map g l))%Q.
Proof.
  induction l as [|x l IH]; intros H; simpl; [reflexivity|].
  rewrite (H x) by now left. rewrite IH; [reflexivity|]. intros; apply H; now right.
Qed.

Lemma Qsum_map_plus {A : Type} (f g : A -> Q) (l : list A) :
  (Qsum (map (fun x => f x + g x) l) == Qsum (map f l) + Qsum (map g l))%Q.
Proof.
  induction l as [|x l IH]; simpl; [ring|]. rewrite IH. ring.
Qed.

Lemma Qsum_indicator (k : Z) (m : Q) (hs : list Z) :
  NoDup hs ->
  (Qsum (map (fun h => if k =? h then m else 0) hs) == if existsb (Z.eqb k) hs then m else 0)%Q.
Proof.
  induction 1 as [|h hs Hn _ IH]; simpl; [reflexivity|].
  rewrite IH. destruct (k =? h) eqn:E; simpl; [|ring].
  apply Z.eqb_eq in E. subst h.
  destruct (existsb (Z.eqb k) hs) eqn:Ex; [|ring].
  apply existsb_exists in Ex as [x [Hx Hk]]. apply Z.eqb_eq in Hk. subst x. contradiction.
Qed.

Lemma range24_spec (h : Z) : In h range24 <-> 0 <= h < 24.
Proof.
  unfold range24. rewrite in_map_iff. split.
  - intros [n [<- Hn]]. apply in_seq in Hn. lia.
  - intros Hh. exists (Z.to_nat h). split; [lia|]. apply in_seq. lia.
Qed.

Lemma range24_nodup : NoDup range24.
Proof.
  vm_compute. repeat (constructor; [simpl; intuition discriminate|]). constructor.
Qed.

Lemma minutes_over_the_day (df : list play_event) :
  (Qsum (map (fun h => minutes_in_hour h df) range24) == total_minutes_played df)%Q.
Proof.
  unfold total_minutes_played. induction df as [|e df IH].
  - vm_compute. reflexivity.
  - cbn [map Qsum fold_right]. rewrite <- IH.
    rewrite (Qsum_map_ext _ (fun h => (if hour_of (ts e) =? h then minutes_played e else 0)
                                       + minutes_in_hour h df)%Q).
    + rewrite Qsum_map_plus, (Qsum_indicator _ _ _ range24_nodup).
      assert (Hex : existsb (Z.eqb (hour_of (ts e))) range24 = true).
      { apply existsb_exists. exists (hour_of (ts e)).
        split; [apply range24_spec, hour_of_range|apply Z.eqb_refl]. }
      rewrite Hex. reflexivity.
    + intros h _. unfold minutes_in_hour. cbn [filter].
      destruct (hour_of (ts e) =? h); unfold Qsum; cbn [map fold_right]; ring.
Qed.

Lemma filled_cell_value (df : list play_event) (h : Z) :
  (snd (filled_cell df h) == minutes_in_hour h df)%Q.
Proof.
  unfold filled_cell. cbn [snd]. rewrite <- groupby_hour_sum_held. unfold held_at.
  destruct (sorted_filter_label h (groupby_hour_sum df) (groupby_hour_sum_sorted df))
    as [->|[v ->]]; simpl; ring.
Qed.

(** X8.  Grouping by hour loses no minute: [hourly_stats.sum()] is the total of
    the [minutes_played] column, and so is the sum of the 24 rows behind
    the listening clock. *)
Theorem hourly_totals_are_conserved (df : list play_event) :
  (series_sum (groupby_hour_sum df) == total_minutes_played df)%Q
  /\ (series_sum (hourly_profile df) == total_minutes_played df)%Q.
Proof.
  split; [apply groupby_hour_sum_total|].
  rewrite hourly_profile_cells. unfold series_sum. rewrite map_map.
  rewrite <- minutes_over_the_day. apply Qsum_map_ext.
  intros h _. apply filled_cell_value.
Qed.

(** ** Time blocks: when the slices are the hours they name *)

Lemma sorted_same_elements (l1 l2 : list Z) :
  StronglySorted Z.lt l1 -> StronglySorted Z.lt l2 ->
  (forall x, In x l1 <-> In x l2) -> l1 = l2.
Proof.
  intros H1; revert l2; induction H1 as [|x l1 Hs1 IH Hall1]; intros l2 H2 Hsame.
  - destruct l2 as [|y l2]; [reflexivity|]. exfalso. apply (Hsame y). now left.
  - destruct H2 as [|y l2 Hs2 Hall2].
    + exfalso. apply (Hsame x). now left.
    + rewrite Forall_forall in Hall1, Hall2.
      assert (x = y).
      { destruct (proj1 (Hsame x) (or_introl eq_refl)) as [Hy|Hy]; [now symmetry|].
        destruct (proj2 (Hsame y) (or_introl eq_refl)) as [Hx|Hx]; [exact Hx|].
        specialize (Hall1 y Hx). specialize (Hall2 x Hy). lia. }
      subst y. f_equal. apply IH; [exact Hs2|].
      intros z. split; intros Hz.
      * destruct (proj1 (Hsame z) (or_intror Hz)) as [Hy|Hy]; [|exact Hy].
        specialize (Hall1 z Hz). lia.
      * destruct (proj2 (Hsame z) (or_intror Hz)) as [Hy|Hy]; [|exact Hy].
        specialize (Hall2 z Hz). lia.
Qed.

Lemma range24_sorted : StronglySorted Z.lt range24.
Proof. vm_compute. repeat (constructor; [|repeat constructor]). constructor. Qed.

Lemma every_hour_keys (df : list play_event) :
  (forall h, 0 <= h < 24 -> exists e, In e df /\ hour_of (ts e) = h) ->
  map fst (groupby_hour_sum df) = range24.
Proof.
  intros Hall. apply sorted_same_elements.
  - apply groupby_hour_sum_sorted.
  - apply range24_sorted.
  - intros h. rewrite groupby_hour_sum_keys, range24_spec. split.
    + intros [e [_ <-]]. apply hour_of_range.
    + apply Hall.
Qed.

Lemma sorted_series_cells (s : series) :
  StronglySorted Z.lt (map fst s) ->
  map (fun h => (h, match filter (fun kv : Z * Q => h =? fst kv) s with
                    | kv :: _ => snd kv
                    | [] => 0%Q
                    end)) (map fst s) = s.
Proof.
  intros Hs. rewrite map_map.
  transitivity (map (fun kv : Z * Q => kv) s); [|apply map_id].
  apply map_ext_in. intros [k v] Hin. cbn [fst].
  assert (Hf : In (k, v) (filter (fun kv : Z * Q => k =? fst kv) s)).
  { apply filter_In. split; [exact Hin|]. cbn [fst]. apply Z.eqb_refl. }
  destruct (sorted_filter_label k s Hs) as [E|[v' E]]; rewrite E in Hf |- *.
  - destruct Hf.
  - destruct Hf as [Hf|[]]. injection Hf as ->. reflexivity.
Qed.

(** X9.  When every hour of the day has at least one event, position and hour
    coincide in [hourly_stats]: it is the 24-row profile itself, and each
    block holds the minutes of the hours it names, hour 8 belonging to
    none. *)
Theorem blocks_by_hour_when_every_hour_occurs (df : list play_event) :
  (forall h, 0 <= h < 24 -> exists e, In e df /\ hour_of (ts e) = h) ->
  groupby_hour_sum df = hourly_profile df
  /\ (block_minutes (groupby_hour_sum df) 5 8
      == minutes_in_hours early_morning_hours df)%Q
  /\ (block_minutes (groupby_hour_sum df) 9 17
      == minutes_in_hours work_hours df)%Q
  /\ (block_minutes (groupby_hour_sum df) 17 22
      == minutes_in_hours evening_hours df)%Q
  /\ (block_minutes (groupby_hour_sum df) 22 5
      == minutes_in_hours late_night_hours df)%Q
  /\ (ninth_bucket (groupby_hour_sum df) == minutes_in_hour 8 df)%Q.
Proof.
  intros Hall.
  assert (E : groupby_hour_sum df = hourly_profile df).
  { rewrite hourly_profile_cells, <- (every_hour_keys df Hall).
    symmetry. apply sorted_series_cells, groupby_hour_sum_sorted. }
  split; [exact E|]. rewrite E, hourly_profile_cells.
  change range24
    with [0; 1; 2; 3; 4; 5; 6; 7; 8; 9; 10; 11; 12; 13; 14; 15; 16; 17; 18; 19; 20; 21; 22; 23].
  unfold block_minutes, ninth_bucket, series_slice, series_from, series_upto, series_sum,
    minutes_in_hours, early_morning_hours, work_hours, evening_hours, late_night_hours, Qsum.
  cbn [Nat.ltb Nat.leb Nat.sub map firstn skipn fold_right].
  rewrite !filled_cell_value. repeat split; ring.
Qed.

Lemma every_hour_occurs :
  forall h, 0 <= h < 24 -> exists e, In e every_hour /\ hour_of (ts e) = h.
Proof.
  intros h Hh. exists (one_minute_at_hour h). split.
  - unfold every_hour. apply in_map. now apply range24_spec.
  - unfold one_minute_at_hour, hour_of. cbn [ts].
    rewrite Z.div_mul by lia. apply Z.mod_small. lia.
Qed.

Lemma blocks_by_hour_when_every_hour_occurs_witness :
  (forall h, 0 <= h < 24 -> exists e, In e every_hour /\ hour_of (ts e) = h)
  /\ groupby_hour_sum every_hour = hourly_profile every_hour
  /\ (block_minutes (groupby_hour_sum every_hour) 22 5
      == minutes_in_hours late_night_hours every_hour)%Q.
Proof.
  split; [exact every_hour_occurs|].
  destruct (blocks_by_hour_when_every_hour_occurs every_hour every_hour_occurs)
    as [H1 [_ [_ [_ [H5 _]]]]].
  split; [exact H1|exact H5].
Defined.

(** ** Time blocks: the sum and the size of the shares *)

(** X10.  With a total other than zero the four shares are numbers and add up
    to 100 times the part of the total that is not in the ninth bucket of
    [hourly_stats]: to 100 exactly when fewer than nine hours occur or the
    ninth holds nothing. *)
Theorem shares_sum_misses_the_ninth_bucket (df : list play_event) :
  ~ (total_minutes_played df == 0)%Q ->
  exists p, percentages_sum (block_percentages df) = Some p
            /\ (p == 100 * (total_minutes_played df - ninth_bucket (groupby_hour_sum df))
                     / total_minutes_played df)%Q.
Proof. apply block_percentages_sum. Qed.

Lemma shares_sum_misses_the_ninth_bucket_witness :
  ~ (total_minutes_played hours_0_to_8 == 0)%Q
  /\ exists p, percentages_sum (block_percentages hours_0_to_8) = Some p
               /\ (p == 100 * (total_minutes_played hours_0_to_8
                               - ninth_bucket (groupby_hour_sum hours_0_to_8))
                        / total_minutes_played hours_0_to_8)%Q.
Proof.
  assert (H : ~ (total_minutes_played hours_0_to_8 == 0)%Q)
    by (intros H; vm_compute in H; discriminate).
  split; [exact H|]. exact (shares_sum_misses_the_ninth_bucket hours_0_to_8 H).
Defined.

Lemma share_bounds (b t : Q) :
  (0 < t)%Q -> (0 <= b)%Q -> (b <= t)%Q -> (0 <= b / t * 100 /\ b / t * 100 <= 100)%Q.
Proof.
  intros Ht Hb Hbt.
  assert (Hq : (0 <= b / t)%Q) by (apply Qle_shift_div_l; [exact Ht|lra]).
  assert (Hq1 : (b / t <= 1)%Q) by (apply Qle_shift_div_r; [exact Ht|lra]).
  split; lra.
Qed.

(** X11.  With no negative duration and a total other than zero, every share is
    a number between 0 and 100 and the four add up to at most 100; they add
    up to exactly 100 when the ninth bucket is absent or empty. *)
Theorem shares_between_0_and_100 (df : list play_event) :
  (forall e, In e df -> (0 <= minutes_played e)%Q) ->
  ~ (total_minutes_played df == 0)%Q ->
  Forall (fun bp : string * npfloat =>
            exists p, snd bp = Fin p /\ (0 <= p)%Q /\ (p <= 100)%Q) (block_percentages df)
  /\ exists total, percentages_sum (block_percentages df) = Some total
                   /\ (total <= 100)%Q
                   /\ ((ninth_bucket (groupby_hour_sum df) == 0)%Q -> (total == 100)%Q).
Proof.
  intros Hnn Hne.
  pose proof (groupby_hour_sum_total df) as Ht.
  pose proof (groupby_hour_sum_nonneg df Hnn) as Hs.
  pose proof (block_minutes_cover (groupby_hour_sum df)) as Hc.
  assert (Hninth : (0 <= ninth_bucket (groupby_hour_sum df))%Q).
  { unfold ninth_bucket, series_slice. apply (slice_sum_nonneg _ 1 8 Hs). }
  assert (Htot : (0 < series_sum (groupby_hour_sum df))%Q).
  { assert (0 <= series_sum (groupby_hour_sum df))%Q
      by (unfold series_sum; now apply Qsum_nonneg).
    rewrite <- Ht in Hne. destruct (Qlt_le_dec 0 (series_sum (groupby_hour_sum df)));
      [assumption|]. exfalso. apply Hne. lra. }
  assert (H58 : (0 <= block_minutes (groupby_hour_sum df) 5 8)%Q)
    by (unfold block_minutes, series_slice; cbn [Nat.ltb Nat.leb Nat.sub];
        apply (slice_sum_nonneg _ 3 5 Hs)).
  assert (H917 : (0 <= block_minutes (groupby_hour_sum df) 9 17)%Q)
    by (unfold block_minutes, series_slice; cbn [Nat.ltb Nat.leb Nat.sub];
        apply (slice_sum_nonneg _ 8 9 Hs)).
  assert (H1722 : (0 <= block_minutes (groupby_hour_sum df) 17 22)%Q)
    by (unfold block_minutes, series_slice; cbn [Nat.ltb Nat.leb Nat.sub];
        apply (slice_sum_nonneg _ 5 17 Hs)).
  assert (H225 : (0 <= block_minutes (groupby_hour_sum df) 22 5)%Q).
  { unfold block_minutes, series_from, series_upto. cbn [Nat.ltb Nat.leb].
    pose proof (slice_sum_nonneg _ 5 0 Hs) as Ha. cbn [skipn] in Ha.
    assert (Hb : (0 <= series_sum (skipn 22 (groupby_hour_sum df)))%Q).
    { unfold series_sum. apply Qsum_nonneg. rewrite <- skipn_map. now apply Forall_skipn. }
    lra. }
  split.
  - unfold block_percentages, time_blocks. cbn [map fst snd].
    unfold np_truediv. rewrite Qeq_bool_false by lra. cbn [np_mul].
    repeat constructor; cbn [snd]; eexists; (split; [reflexivity|]);
      apply share_bounds; lra.
  - destruct (block_percentages_sum df Hne) as [p [Hp Hv]].
    exists p. split; [exact Hp|]. rewrite Hv, <- Ht.
    set (t := series_sum (groupby_hour_sum df)) in *.
    set (n := ninth_bucket (groupby_hour_sum df)) in *.
    split.
    + apply Qle_shift_div_r; [exact Htot|]. lra.
    + intros Hz. rewrite Hz. field. lra.
Qed.

Lemma shares_between_0_and_100_witness :
  (forall e, In e hours_0_to_8 -> (0 <= minutes_played e)%Q)
  /\ ~ (total_minutes_played hours_0_to_8 == 0)%Q
  /\ Forall (fun bp : string * npfloat =>
               exists p, snd bp = Fin p /\ (0 <= p)%Q /\ (p <= 100)%Q)
            (block_percentages hours_0_to_8).
Proof.
  assert (H1 : forall e, In e hours_0_to_8 -> (0 <= minutes_played e)%Q).
  { intros e He. unfold hours_0_to_8 in He. apply in_map_iff in He as [h [<- _]].
    vm_compute. discriminate. }
  assert (H2 : ~ (total_minutes_played hours_0_to_8 == 0)%Q)
    by (intros H; vm_compute in H; discriminate).
  split; [exact H1|]. split; [exact H2|].
  exact (proj1 (shares_between_0_and_100 hours_0_to_8 H1 H2)).
Defined.

(** ** The peak hour and the dominant block *)

Lemma Qlt_bool_false_iff (a b : Q) : Qlt_bool a b = false <-> (b <= a)%Q.
Proof.
  unfold Qlt_bool. rewrite negb_false_iff. apply Qle_bool_iff.
Qed.

Lemma groupby_entry_value (df : list play_event) (k : Z) (v : Q) :
  In (k, v) (groupby_hour_sum df) -> (v == minutes_in_hour k df)%Q.
Proof.
  intros Hin. rewrite <- groupby_hour_sum_held. unfold held_at.
  assert (Hf : In (k, v) (filter (fun kv : Z * Q => k =? fst kv) (groupby_hour_sum df))).
  { apply filter_In. split; [exact Hin|]. cbn [fst]. apply Z.eqb_refl. }
  destruct (sorted_filter_label k (groupby_hour_sum df) (groupby_hour_sum_sorted df))
    as [E|[v' E]]; rewrite E in Hf |- *.
  - destruct Hf.
  - destruct Hf as [Hf|[]]. injection Hf as ->. simpl. ring.
Qed.

(** What [idxmax] picks: an entry no other entry exceeds, and the first
    such one. *)
Lemma first_largest_spec (rest : series) (best : Z * Q) :
  In (first_largest best rest) (best :: rest)
  /\ (forall kv, In kv (best :: rest) -> (snd kv <= snd (first_largest best rest))%Q)
  /\ exists before after,
       best :: rest = before ++ first_largest best rest :: after
       /\ forall kv, In kv before -> (snd kv < snd (first_largest best rest))%Q.
Proof.
  revert best; induction rest as [|kv rest IH]; intros best; cbn [first_largest].
  - split; [now left|]. split.
    + intros x [<-|[]]. apply Qle_refl.
    + exists [], []. split; [reflexivity|]. intros x [].
  - destruct (Qlt_bool (snd best) (snd kv)) eqn:E.
    + apply Qlt_bool_iff in E.
      destruct (IH kv) as [Hin [Hmax [before [after [Hsplit Hbefore]]]]].
      set (r := first_largest kv rest) in *.
      split; [now right|]. split.
      * intros x [<-|Hx]; [|now apply Hmax].
        specialize (Hmax kv (or_introl eq_refl)). lra.
      * exists (best :: before), after. split; [cbn [app]; now rewrite Hsplit|].
        intros x [<-|Hx]; [|now apply Hbefore].
        specialize (Hmax kv (or_introl eq_refl)). lra.
    + apply Qlt_bool_false_iff in E.
      destruct (IH best) as [Hin [Hmax [before [after [Hsplit Hbefore]]]]].
      set (r := first_largest best rest) in *.
      split; [destruct Hin as [Hin|Hin]; [now left|right; now right]|]. split.
      * intros x [<-|[<-|Hx]].
        -- apply Hmax. now left.
        -- specialize (Hmax best (or_introl eq_refl)). lra.
        -- apply Hmax. now right.
      * destruct before as [|b before].
        -- cbn [app] in Hsplit. injection Hsplit as Hr Hrest.
           exists [], (kv :: rest). split; [cbn [app]; now rewrite <- Hr|].
           intros x [].
        -- cbn [app] in Hsplit. injection Hsplit as Hb Hrest. subst b.
           exists (best :: kv :: before), after. split; [cbn [app]; now rewrite Hrest|].
           intros x [<-|[<-|Hx]].
           ++ apply Hbefore. now left.
           ++ specialize (Hbefore best (or_introl eq_refl)). lra.
           ++ apply Hbefore. now right.
Qed.

Lemma sorted_app_after (l1 l2 : list Z) (x : Z) :
  StronglySorted Z.lt (l1 ++ x :: l2) -> Forall (Z.lt x) l2.
Proof.
  induction l1 as [|y l1 IH]; cbn [app]; intros H; inversion H; subst; auto.
Qed.

(** X12.  The hour announced as the peak: there is none only for an empty table;
    otherwise it is an hour in which something was played, no hour in which
    something was played has more minutes, and every earlier such hour has
    strictly fewer (of two hours with the same total the earlier wins). *)
Theorem peak_hour_is_the_first_busiest_hour (df : list play_event) :
  (peak_hour df = None <-> df = [])
  /\ forall h, peak_hour df = Some h ->
       (exists e, In e df /\ hour_of (ts e) = h)
       /\ (forall e, In e df ->
             (minutes_in_hour (hour_of (ts e)) df <= minutes_in_hour h df)%Q)
       /\ (forall e, In e df -> hour_of (ts e) < h ->
             (minutes_in_hour (hour_of (ts e)) df < minutes_in_hour h df)%Q).
Proof.
  unfold peak_hour, idxmax. split.
  - destruct (groupby_hour_sum df) as [|kv rest] eqn:E.
    + split; [intros _|reflexivity].
      destruct df as [|e df]; [reflexivity|]. exfalso.
      assert (H : In (hour_of (ts e)) (map fst (groupby_hour_sum (e :: df)))).
      { apply groupby_hour_sum_keys. exists e. split; [now left|reflexivity]. }
      rewrite E in H. destruct H.
    + split; [discriminate|]. intros ->. discriminate.
  - intros h Hh.
    pose proof (groupby_hour_sum_sorted df) as Hsorted.
    destruct (groupby_hour_sum df) as [|kv rest] eqn:E; [discriminate|].
    injection Hh as Hh.
    destruct (first_largest_spec rest kv) as [Hin [Hmax [before [after [Hsplit Hbefore]]]]].
    destruct (first_largest kv rest) as [k v] eqn:Er. cbn [fst snd] in *. subst k.
    rewrite <- E in Hin.
    assert (Hv : (v == minutes_in_hour h df)%Q) by now apply groupby_entry_value.
    assert (Hentry : forall e, In e df ->
              exists w, In (hour_of (ts e), w) (kv :: rest)
                        /\ (w == minutes_in_hour (hour_of (ts e)) df)%Q).
    { intros e He.
      assert (Hk : In (hour_of (ts e)) (map fst (groupby_hour_sum df)))
        by (apply groupby_hour_sum_keys; eauto).
      apply in_map_iff in Hk as [[k w] [Hk Hkw]]. cbn [fst] in Hk. subst k.
      exists w. split; [now rewrite <- E|now apply groupby_entry_value]. }
    split; [|split].
    + apply groupby_hour_sum_keys. apply in_map_iff. exists (h, v). split; [reflexivity|exact Hin].
    + intros e He. destruct (Hentry e He) as [w [Hw Hwv]].
      specialize (Hmax _ Hw). cbn [snd] in Hmax. rewrite <- Hwv, <- Hv. exact Hmax.
    + intros e He Hlt. destruct (Hentry e He) as [w [Hw Hwv]].
      rewrite Hsplit in Hw, Hsorted. rewrite map_app in Hsorted. cbn [map fst] in Hsorted.
      apply in_app_or in Hw as [Hw|[Hw|Hw]].
      * specialize (Hbefore _ Hw). cbn [snd] in Hbefore. rewrite <- Hwv, <- Hv. exact Hbefore.
      * injection Hw as Hw _. lia.
      * apply sorted_app_after in Hsorted. rewrite Forall_forall in Hsorted.
        assert (h < hour_of (ts e)).
        { apply Hsorted. apply in_map_iff. exists (hour_of (ts e), w). split; [reflexivity|exact Hw]. }
        lia.
Qed.

Lemma py_max_by_finite {A : Type} (key : A -> npfloat) (rest : list A) (best : A) :
  Forall (fun x => exists q, key x = Fin q) (best :: rest) ->
  In (py_max_by key best rest) (best :: rest)
  /\ forall x, In x (best :: rest) -> finite_le (key x) (key (py_max_by key best rest)).
Proof.
  revert best; induction rest as [|y rest IH]; intros best Hfin; cbn [py_max_by].
  - split; [now left|]. intros x [<-|[]].
    inversion Hfin as [|? ? [q Hq] _]; subst. unfold finite_le. rewrite Hq. apply Qle_refl.
  - inversion Hfin as [|? ? [qb Hb] Hrest]; subst.
    inversion Hrest as [|? ? [qy Hy] Hrest']; subst.
    unfold npfloat_gt. rewrite Hy, Hb.
    destruct (Qlt_bool qb qy) eqn:E.
    + apply Qlt_bool_iff in E.
      destruct (IH y Hrest) as [Hin Hmax]. split; [now right|].
      intros x [<-|Hx]; [|now apply Hmax].
      specialize (Hmax y (or_introl eq_refl)). unfold finite_le in *.
      rewrite Hb. rewrite Hy in Hmax.
      destruct (key (py_max_by key y rest)); try contradiction. lra.
    + apply Qlt_bool_false_iff in E.
      assert (Hfin' : Forall (fun x => exists q, key x = Fin q) (best :: rest))
        by (constructor; eauto).
      destruct (IH best Hfin') as [Hin Hmax].
      split; [destruct Hin as [Hin|Hin]; [now left|right; now right]|].
      intros x [<-|[<-|Hx]].
      * apply Hmax. now left.
      * specialize (Hmax best (or_introl eq_refl)). unfold finite_le in *.
        rewrite Hy. rewrite Hb in Hmax.
        destruct (key (py_max_by key best rest)); try contradiction. lra.
      * apply Hmax. now right.
Qed.

Lemma block_percentages_finite (df : list play_event) :
  ~ (total_minutes_played df == 0)%Q ->
  Forall (fun bp : string * npfloat => exists q, snd bp = Fin q) (block_percentages df).
Proof.
  intros Hne. pose proof (groupby_hour_sum_total df) as Ht.
  unfold block_percentages, time_blocks. cbn [map fst snd].
  unfold np_truediv. rewrite Qeq_bool_false by (rewrite Ht; exact Hne).
  cbn [np_mul]. repeat constructor; cbn [snd]; eauto.
Qed.

(** X13.  With a total other than zero, the block whose pool the second insight
    is drawn from is one of the four and no block has a larger share. *)
Theorem max_block_has_the_largest_share (df : list play_event) :
  ~ (total_minutes_played df == 0)%Q ->
  exists block share,
    max_block df = Some (block, Fin share)
    /\ In (block, Fin share) (block_percentages df)
    /\ forall b q, In (b, Fin q) (block_percentages df) -> (q <= share)%Q.
Proof.
  intros Hne. pose proof (block_percentages_finite df Hne) as Hfin.
  unfold max_block.
  destruct (block_percentages df) as [|b rest] eqn:E; [discriminate E|].
  destruct (py_max_by_finite snd rest b Hfin) as [Hin Hmax].
  assert (Hq : exists q, snd (py_max_by snd b rest) = Fin q).
  { rewrite Forall_forall in Hfin. now apply Hfin. }
  destruct Hq as [q Hq]. destruct (py_max_by snd b rest) as [name share] eqn:Em.
  cbn [snd] in Hq. subst share.
  exists name, q. split; [reflexivity|]. split; [exact Hin|].
  intros b' q' Hb'. specialize (Hmax _ Hb'). cbn [snd] in Hmax. exact Hmax.
Qed.

Lemma max_block_has_the_largest_share_witness :
  ~ (total_minutes_played hours_0_to_8 == 0)%Q
  /\ exists block share,
       max_block hours_0_to_8 = Some (block, Fin share)
       /\ In (block, Fin share) (block_percentages hours_0_to_8)
       /\ forall b q, In (b, Fin q) (block_percentages hours_0_to_8) -> (q <= share)%Q.
Proof.
  assert (H : ~ (total_minutes_played hours_0_to_8 == 0)%Q)
    by (intros H; vm_compute in H; discriminate).
  split; [exact H|]. exact (max_block_has_the_largest_share hours_0_to_8 H).
Defined.

Lemma zero_total_shares_nan (df : list play_event) :
  (total_minutes_played df == 0)%Q ->
  (forall e, In e df -> (0 <= minutes_played e)%Q) ->
  block_percentages df
  = [("early_morning"%string, NaN); ("work_hours"%string, NaN);
     ("evening"%string, NaN); ("late_night"%string, NaN)].
Proof.
  intros Hz Hnn. pose proof (groupby_hour_sum_total df) as Ht. rewrite Hz in Ht.
  pose proof (block_minutes_all_zero _ (groupby_hour_sum_nonneg df Hnn) Ht) as Hb.
  unfold block_percentages, time_blocks in *. cbn [map fst snd] in *.
  repeat match goal with
         | H : Forall _ (_ :: _) |- _ => inversion H; clear H; subst
         end.
  cbn [fst snd] in *.
  unfold np_truediv. rewrite (Qeq_bool_true _ _ Ht).
  repeat match goal with
         | H : (block_minutes _ _ _ == 0)%Q |- _ => rewrite (Qeq_bool_true _ _ H); clear H
         end.
  reflexivity.
Qed.

(** X14.  With a zero total and no negative duration every share is NaN, no
    comparison of line 351 succeeds, and the block kept is the first of the
    dictionary: the second insight is then always an early-morning one. *)
Theorem zero_total_picks_early_morning (df : list play_event) :
  (total_minutes_played df == 0)%Q ->
  (forall e, In e df -> (0 <= minutes_played e)%Q) ->
  max_block df = Some ("early_morning"%string, NaN).
Proof.
  intros Hz Hnn. unfold max_block. rewrite (zero_total_shares_nan df Hz Hnn). reflexivity.
Qed.

Lemma zero_total_picks_early_morning_witness :
  (total_minutes_played nothing_played == 0)%Q
  /\ (forall e, In e nothing_played -> (0 <= minutes_played e)%Q)
  /\ max_block nothing_played = Some ("early_morning"%string, NaN).
Proof.
  assert (H1 : (total_minutes_played nothing_played == 0)%Q) by (vm_compute; reflexivity).
  assert (H2 : forall e, In e nothing_played -> (0 <= minutes_played e)%Q)
    by (intros e [<-|[]]; vm_compute; discriminate).
  split; [exact H1|]. split; [exact H2|].
  exact (zero_total_picks_early_morning nothing_played H1 H2).
Defined.

(** ** Daily counts *)

Lemma count_add_held (d k : Z) (acc : list (Z * Z)) :
  Zsum (map snd (filter (fun r : Z * Z => d =? fst r) (count_add k acc)))
  = Zsum (map snd (filter (fun r : Z * Z => d =? fst r) acc)) + (if d =? k then 1 else 0).
Proof.
  unfold Zsum. induction acc as [|[k' n] acc IH]; cbn [count_add filter map fold_right fst snd].
  - destruct (d =? k); cbn [count_add filter map fold_right fst snd]; lia.
  - destruct (k <? k') eqn:Elt; [|destruct (k =? k') eqn:Eeq]; cbn [count_add filter map fold_right fst snd].
    + destruct (d =? k); destruct (d =? k'); cbn [count_add filter map fold_right fst snd]; lia.
    + apply Z.eqb_eq in Eeq. subst k'. destruct (d =? k); cbn [count_add filter map fold_right fst snd]; lia.
    + destruct (d =? k'); cbn [count_add filter map fold_right fst snd]; rewrite IH; lia.
Qed.

Lemma count_add_sum (k : Z) (acc : list (Z * Z)) :
  Zsum (map snd (count_add k acc)) = Zsum (map snd acc) + 1.
Proof.
  unfold Zsum. induction acc as [|[k' n] acc IH];
    cbn [count_add filter map fold_right fst snd]; [lia|].
  destruct (k <? k'); [|destruct (k =? k')];
    cbn [count_add filter map fold_right fst snd]; lia.
Qed.

Lemma count_add_key_in (k : Z) (acc : list (Z * Z)) (x : Z) :
  In x (map fst (count_add k acc)) <-> x = k \/ In x (map fst acc).
Proof.
  induction acc as [|[k' n] acc IH]; simpl; [intuition congruence|].
  destruct (k <? k') eqn:E1; [|destruct (k =? k') eqn:E2]; simpl.
  - intuition congruence.
  - apply Z.eqb_eq in E2. intuition congruence.
  - rewrite IH. intuition congruence.
Qed.

Lemma count_add_sorted (k : Z) (acc : list (Z * Z)) :
  StronglySorted Z.lt (map fst acc) -> StronglySorted Z.lt (map fst (count_add k acc)).
Proof.
  induction acc as [|[k' n] acc IH]; simpl; intros Hs.
  - repeat constructor.
  - inversion Hs as [|? ? Hs' Hall]; subst.
    destruct (k <? k') eqn:Elt; [|destruct (k =? k') eqn:Eeq]; simpl.
    + apply Z.ltb_lt in Elt. constructor; [exact Hs|].
      constructor; [exact Elt|].
      eapply Forall_impl; [|exact Hall]. intros; lia.
    + constructor; assumption.
    + constructor; [now apply IH|].
      apply Forall_forall. intros x Hx. apply count_add_key_in in Hx as [->|Hx].
      * apply Z.ltb_ge in Elt. apply Z.eqb_neq in Eeq. lia.
      * rewrite Forall_forall in Hall. now apply Hall.
Qed.

Lemma sorted_filter_day (d : Z) (l : list (Z * Z)) :
  StronglySorted Z.lt (map fst l) ->
  forall n, In (d, n) l -> filter (fun r : Z * Z => d =? fst r) l = [(d, n)].
Proof.
  induction l as [|[k m] l IH]; simpl; intros Hs n Hin; [destruct Hin|].
  inversion Hs as [|? ? Hs' Hall]; subst. rewrite Forall_forall in Hall.
  destruct Hin as [Hin|Hin].
  - injection Hin as -> ->. rewrite Z.eqb_refl. f_equal.
    clear IH Hs Hs'. induction l as [|[k' m'] l IH]; simpl; [reflexivity|].
    assert (d < k') by (apply Hall; now left).
    destruct (d =? k') eqn:E; [apply Z.eqb_eq in E; lia|].
    apply IH. intros x Hx. apply Hall. now right.
  - assert (k < d) by (apply Hall; apply in_map_iff; exists (d, n); split; [reflexivity|exact Hin]).
    destruct (d =? k) eqn:E; [apply Z.eqb_eq in E; lia|]. now apply IH.
Qed.

Lemma daily_counts_fold (df : list play_event) (acc : list (Z * Z)) :
  let result := fold_left (fun a e => count_add (date_of (ts e)) a) df acc in
  (StronglySorted Z.lt (map fst acc) -> StronglySorted Z.lt (map fst result))
  /\ (forall d, In d (map fst result)
                <-> In d (map fst acc) \/ exists e, In e df /\ date_of (ts e) = d)
  /\ (forall d, Zsum (map snd (filter (fun r : Z * Z => d =? fst r) result))
                = Zsum (map snd (filter (fun r : Z * Z => d =? fst r) acc)) + events_on d df)
  /\ Zsum (map snd result) = Zsum (map snd acc) + Z.of_nat (List.length df).
Proof.
  revert acc; induction df as [|e df IH]; intros acc; cbn [fold_left].
  - cbn zeta. split; [tauto|]. split; [|split].
    + intros d. split; [tauto|]. intros [H|[e [[] _]]]. exact H.
    + intros d. unfold events_on. simpl. lia.
    + simpl. lia.
  - destruct (IH (count_add (date_of (ts e)) acc)) as [H1 [H2 [H3 H4]]]. cbn zeta in *.
    split; [|split; [|split]].
    + intros Hs. apply H1. now apply count_add_sorted.
    + intros d. rewrite H2, count_add_key_in. split.
      * intros [[->|H]|[e' [He' Hd]]].
        -- right. exists e. split; [now left|reflexivity].
        -- now left.
        -- right. exists e'. split; [now right|exact Hd].
      * intros [H|[e' [[<-|He'] Hd]]].
        -- left; now right.
        -- left; left. now symmetry.
        -- right. exists e'. tauto.
    + intros d. rewrite H3, count_add_held. unfold events_on. cbn [filter].
      rewrite (Z.eqb_sym d). destruct (date_of (ts e) =? d); cbn [List.length]; lia.
    + rewrite H4, count_add_sum. cbn [List.length]. lia.
Qed.

(** X15.  The rows behind the waveform: one per calendar day on which something
    was played and none for the days in between, in increasing date order;
    the count of a row is the number of events of that day, so at least 1;
    the counts add up to the number of rows of the table; the second trace
    is the first one negated. *)
Theorem daily_counts_count_every_event_once (df : list play_event) :
  StronglySorted Z.lt (map fst (daily_counts df))
  /\ (forall d, In d (map fst (daily_counts df)) <-> exists e, In e df /\ date_of (ts e) = d)
  /\ Forall (fun r : Z * Z => snd r = events_on (fst r) df /\ 1 <= snd r) (daily_counts df)
  /\ Zsum (map snd (daily_counts df)) = Z.of_nat (List.length df)
  /\ map snd (snd (waveform_bars df)) = map Z.opp (map snd (fst (waveform_bars df)))
  /\ map fst (snd (waveform_bars df)) = map fst (fst (waveform_bars df)).
Proof.
  destruct (daily_counts_fold df []) as [H1 [H2 [H3 H4]]]. cbn zeta in *.
  fold (daily_counts df) in H1, H2, H3, H4.
  assert (Hs : StronglySorted Z.lt (map fst (daily_counts df))) by (apply H1; constructor).
  split; [exact Hs|]. split; [|split; [|split; [|split]]].
  - intros d. rewrite H2. simpl. tauto.
  - apply Forall_forall. intros [d n] Hin. cbn [fst snd].
    assert (Hn : n = events_on d df).
    { specialize (H3 d). rewrite (sorted_filter_day d _ Hs n Hin) in H3.
      simpl in H3. lia. }
    split; [exact Hn|].
    assert (Hd : In d (map fst (daily_counts df)))
      by (apply in_map_iff; exists (d, n); split; [reflexivity|exact Hin]).
    apply H2 in Hd as [[]|[e [He Hde]]].
    subst n. unfold events_on.
    assert (Hf : In e (filter (fun e0 => date_of (ts e0) =? d) df))
      by (apply filter_In; split; [exact He|now apply Z.eqb_eq]).
    destruct (filter (fun e0 => date_of (ts e0) =? d) df); [destruct Hf|].
    cbn [List.length]. lia.
  - rewrite H4. simpl. lia.
  - unfold waveform_bars. cbn [fst snd]. rewrite !map_map. reflexivity.
  - unfold waveform_bars. cbn [fst snd]. rewrite map_map. reflexivity.
Qed.

Example daily_counts_of_two_days :
  daily_counts two_days = [(19362, 3); (19364, 1)].
Proof. vm_compute. reflexivity. Qed.

(** ** The profile of a synthesized table *)

Lemma Qsum_bounds (l : list Q) (lo hi : Q) :
  Forall (fun q => (lo <= q /\ q <= hi)%Q) l ->
  (lo * inject_Z (Z.of_nat (List.length l)) <= Qsum l
   /\ Qsum l <= hi * inject_Z (Z.of_nat (List.length l)))%Q.
Proof.
  induction 1 as [|q l [Hlo Hhi] _ [IHlo IHhi]].
  - simpl. split; ring_simplify; apply Qle_refl.
  - cbn [List.length Qsum fold_right]. fold (Qsum l).
    rewrite Nat2Z.inj_succ. unfold Z.succ. rewrite inject_Z_plus.
    change (inject_Z 1) with 1%Q. split; lra.
Qed.

(** The mean of a non-empty column of values between two bounds is a number
    between them. *)
Lemma mean_bounds (l : list Q) (lo hi : Q) :
  l <> [] -> Forall (fun q => (lo <= q /\ q <= hi)%Q) l ->
  exists m, np_truediv (Qsum l) (inject_Z (Z.of_nat (List.length l))) = Fin m
            /\ (lo <= m)%Q /\ (m <= hi)%Q.
Proof.
  intros Hne Hall. destruct (Qsum_bounds l lo hi Hall) as [Hlo Hhi].
  assert (Hn : (0 < inject_Z (Z.of_nat (List.length l)))%Q).
  { destruct l; [congruence|]. cbn [List.length].
    change 0%Q with (inject_Z 0). rewrite <- Zlt_Qlt. lia. }
  unfold np_truediv. rewrite Qeq_bool_false by lra.
  eexists. split; [reflexivity|]. split.
  - apply Qle_shift_div_l; [exact Hn|exact Hlo].
  - apply Qle_shift_div_r; [exact Hn|exact Hhi].
Qed.

Lemma py_int_percentage (m : Q) :
  (0 <= m)%Q -> (m <= 1)%Q ->
  exists p, display_percentage (Fin m) = Some p /\ 0 <= p <= 100.
Proof.
  intros H0 H1. unfold display_percentage, py_int. cbn [np_mul].
  eexists. split; [reflexivity|].
  assert (Hx : (0 <= m * 100 /\ m * 100 <= 100)%Q) by (split; lra).
  destruct Hx as [Hx0 Hx1]. destruct (m * 100)%Q as [n d].
  unfold Qle in Hx0, Hx1. cbn [Qnum Qden] in *.
  rewrite Z.quot_div_nonneg by lia. split.
  - apply Z.div_pos; lia.
  - apply Z.div_le_upper_bound; lia.
Qed.

Section ProfileOfSynthesizedTable.

Variable rng : Type.
Variable np_seed : Z -> rng.
Variable random_sample : rng -> Q * rng.
Hypothesis random_sample_unit :
  forall g, (0 <= fst (random_sample g) /\ fst (random_sample g) < 1)%Q.

Local Abbreviation synth := (synthesize np_seed random_sample).
Local Abbreviation enrich := (add_audio_features np_seed random_sample).
Local Abbreviation played := (played_vectors np_seed random_sample).

Lemma synthesize_in_ranges (u : pyval) (f : feature) :
  synth u = Some f -> in_documented_ranges f.
Proof.
  intros Hs. destruct (synthesize_uri _ _ _ _ _ Hs) as [-> _].
  rewrite synthesize_seeded in Hs.
  destruct (f_uri f) as [|c r]; [discriminate|].
  destruct (str_encode (c :: r)); [|discriminate].
  injection Hs as <-. apply draw_feature_ranges. exact random_sample_unit.
Qed.

Lemma played_in_ranges (df : list play_event) :
  Forall in_documented_ranges (played df).
Proof.
  unfold played_vectors. apply Forall_forall. intros f Hf.
  apply in_flat_map in Hf as [e [_ Hf]].
  destruct (synth (spotify_track_uri e)) as [f'|] eqn:E; [|destruct Hf].
  destruct Hf as [<-|[]]. now apply (synthesize_in_ranges _ _ E).
Qed.

Lemma played_nonempty (g0 : rng) (df : list play_event) :
  snd (enrich g0 df) = true -> played df <> [].
Proof.
  intros Hflag Hnil.
  apply flag_true_iff in Hflag as [e [He Hs]].
  apply (synthesize_treatment rng np_seed random_sample) in Hs as [f Hf].
  assert (Hin : In f (played df)).
  { unfold played_vectors. apply in_flat_map. exists e. split; [exact He|].
    rewrite Hf. now left. }
  rewrite Hnil in Hin. destruct Hin.
Qed.

Lemma column_mean_played (g0 : rng) (df : list play_event) (col : feature -> Q) :
  column_mean col (fst (enrich g0 df))
  = np_truediv (Qsum (map col (played df)))
               (inject_Z (Z.of_nat (List.length (map col (played df))))).
Proof.
  rewrite add_audio_features_rows. unfold column_mean.
  now rewrite present_values_rows.
Qed.

Lemma column_mean_bounds (g0 : rng) (df : list play_event) (col : feature -> Q) (lo hi : Q) :
  snd (enrich g0 df) = true ->
  (forall f, in_documented_ranges f -> (lo <= col f /\ col f <= hi)%Q) ->
  exists m, column_mean col (fst (enrich g0 df)) = Fin m /\ (lo <= m)%Q /\ (m <= hi)%Q.
Proof.
  intros Hflag Hcol. rewrite column_mean_played. apply mean_bounds.
  - intros Hnil. apply map_eq_nil in Hnil. now apply (played_nonempty g0 df Hflag).
  - apply Forall_forall. intros q Hq. apply in_map_iff in Hq as [f [<- Hf]].
    apply Hcol. pose proof (played_in_ranges df) as Hall.
    rewrite Forall_forall in Hall. now apply Hall.
Qed.

Lemma averaged_dimensions_bounds (g0 : rng) (df : list play_event) :
  snd (enrich g0 df) = true ->
  exists d e v s a i,
    average_features (fst (enrich g0 df))
    = mkAveraged (Fin d) (Fin e) (Fin v) (Fin s) (Fin a) (Fin i)
    /\ (0.2 <= d <= 0.9)%Q /\ (0.1 <= e <= 1.0)%Q /\ (0.1 <= v <= 0.9)%Q
    /\ (0.02 <= s <= 0.2)%Q /\ (0.0 <= a <= 1.0)%Q /\ (0.0 <= i <= 0.8)%Q.
Proof.
  intros Hflag. unfold average_features.
  destruct (column_mean_bounds g0 df danceability 0.2 0.9 Hflag) as [d [-> Hd]];
    [intros f Hf; apply Hf|].
  destruct (column_mean_bounds g0 df energy 0.1 1.0 Hflag) as [e [-> He]];
    [intros f Hf; apply Hf|].
  destruct (column_mean_bounds g0 df valence 0.1 0.9 Hflag) as [v [-> Hv]];
    [intros f Hf; apply Hf|].
  destruct (column_mean_bounds g0 df speechiness 0.02 0.2 Hflag) as [s [-> Hs]];
    [intros f Hf; apply Hf|].
  destruct (column_mean_bounds g0 df acousticness 0.0 1.0 Hflag) as [a [-> Ha]];
    [intros f Hf; apply Hf|].
  destruct (column_mean_bounds g0 df instrumentalness 0.0 0.8 Hflag) as [i [-> Hi]];
    [intros f Hf; apply Hf|].
  exists d, e, v, s, a, i. repeat split; tauto.
Qed.

(** X16.  Once [add_audio_features] has set its flag, every averaged dimension
    is a number inside the range its draws come from; none is NaN. *)
Theorem averaged_dimensions_stay_in_range (g0 : rng) (df : list play_event) :
  snd (enrich g0 df) = true ->
  exists d e v s a i,
    average_features (fst (enrich g0 df))
    = mkAveraged (Fin d) (Fin e) (Fin v) (Fin s) (Fin a) (Fin i)
    /\ (0.2 <= d <= 0.9)%Q /\ (0.1 <= e <= 1.0)%Q /\ (0.1 <= v <= 0.9)%Q
    /\ (0.02 <= s <= 0.2)%Q /\ (0.0 <= a <= 1.0)%Q /\ (0.0 <= i <= 0.8)%Q.
Proof. apply averaged_dimensions_bounds. Qed.

(** X17.  The label "Lyric Lover" is never given to a table enriched by
    [add_audio_features]: its rule asks for an average speechiness above
    0.4 and no speechiness is drawn above 0.2. *)
Theorem lyric_lover_is_unreachable (g0 : rng) (df : list play_event) :
  fst (analyze_music_profile (fst (enrich g0 df))) <> LyricLover.
Proof.
  unfold analyze_music_profile. cbn [fst]. unfold classify.
  set (f := average_features (fst (enrich g0 df))).
  assert (Hs : np_gt (avg_speechiness f) 0.4 = false).
  { subst f. unfold average_features. cbn [avg_speechiness].
    rewrite column_mean_played.
    destruct (played df) as [|f0 fs] eqn:E.
    - reflexivity.
    - destruct (mean_bounds (map speechiness (f0 :: fs)) 0.02 0.2) as [m [-> [_ Hm]]].
      + discriminate.
      + apply Forall_forall. intros q Hq. apply in_map_iff in Hq as [x [<- Hx]].
        pose proof (played_in_ranges df) as Hall. rewrite E, Forall_forall in Hall.
        apply (Hall x Hx).
      + cbn [np_gt]. apply Qlt_bool_false_iff. lra. }
  rewrite Hs.
  destruct (np_gt (avg_energy f) 0.7 && np_gt (avg_danceability f) 0.6); [discriminate|].
  destruct (np_gt (avg_acousticness f) 0.6 && np_gt (avg_instrumentalness f) 0.4);
    [discriminate|].
  destruct (np_gt (avg_valence f) 0.6 && np_gt (avg_energy f) 0.5); discriminate.
Qed.

(** X18.  Once the flag is set, each bar of the "Music DNA" column gets a whole
    percentage between 0 and 100: [int(value * 100)] never meets NaN. *)
Theorem displayed_percentages_are_defined (g0 : rng) (df : list play_event) :
  snd (enrich g0 df) = true ->
  let f := average_features (fst (enrich g0 df)) in
  Forall (fun x => exists p, display_percentage x = Some p /\ 0 <= p <= 100)
         [avg_danceability f; avg_energy f; avg_valence f; avg_speechiness f;
          avg_acousticness f; avg_instrumentalness f].
Proof.
  intros Hflag f. subst f.
  destruct (averaged_dimensions_bounds g0 df Hflag)
    as [d [e [v [s [a [i [-> H]]]]]]].
  cbn [avg_danceability avg_energy avg_valence avg_speechiness avg_acousticness
       avg_instrumentalness].
  repeat constructor; apply py_int_percentage; lra.
Qed.

End ProfileOfSynthesizedTable.

(** ** The label and the sentences that follow it *)

Lemma np_gt_excludes_lt (x : npfloat) (a b : Q) :
  (b <= a)%Q -> np_gt x a = true -> np_lt x b = false.
Proof.
  destruct x as [q| | |]; cbn [np_gt np_lt]; intros Hab H; try discriminate; try reflexivity.
  apply Qlt_bool_iff in H. apply Qlt_bool_false_iff. lra.
Qed.

Ltac split_guards :=
  repeat match goal with
         | |- context [np_gt ?x ?c] =>
             let E := fresh "E" in destruct (np_gt x c) eqn:E
         end;
  cbn [andb].

Lemma party_starter_has_high_energy (f : averaged_features) :
  classify f = PartyStarter -> energy_clause f = HighEnergy.
Proof.
  unfold classify, energy_clause. split_guards; intros H; try discriminate; reflexivity.
Qed.

Lemma soul_searcher_hears_organic (f : averaged_features) :
  classify f = SoulSearcher -> acoustic_clause f = [Organic].
Proof.
  unfold classify, acoustic_clause. split_guards; intros H; try discriminate; reflexivity.
Qed.

Lemma mood_lifter_guards (f : averaged_features) :
  classify f = MoodLifter ->
  np_gt (avg_valence f) 0.6 = true /\ np_gt (avg_energy f) 0.5 = true.
Proof.
  unfold classify. split_guards; intros H; try discriminate; split; reflexivity.
Qed.

(** X19.  The insight list has the sentence with the label, one sentence about
    energy, at most one about dancing and at most one about acoustics; and
    the sentences never contradict the label: a Party Starter is told about
    high-energy tracks, a Soul Searcher about acoustic sound, and a Mood
    Lifter is never told that the tunes are laid-back or the moves moody. *)
Theorem label_and_sentences_agree (f : averaged_features) :
  fst (profile_insights f) = classify f
  /\ (1 <= List.length (snd (profile_insights f)) <= 3)%nat
  /\ hd Balanced (snd (profile_insights f)) = energy_clause f
  /\ (classify f = PartyStarter -> energy_clause f = HighEnergy)
  /\ (classify f = SoulSearcher -> acoustic_clause f = [Organic])
  /\ (classify f = MoodLifter ->
      energy_clause f <> LaidBack /\ dance_clause f <> [MoodyDance]).
Proof.
  split; [reflexivity|]. split; [|split; [reflexivity|split; [|split]]].
  - unfold profile_insights. cbn [snd List.length]. rewrite length_app.
    unfold dance_clause, acoustic_clause.
    repeat match goal with
           | |- context [if ?b then _ else _] => destruct b
           end; cbn [List.length]; lia.
  - apply party_starter_has_high_energy.
  - apply soul_searcher_hears_organic.
  - intros H. destruct (mood_lifter_guards f H) as [Hv He].
    pose proof (np_gt_excludes_lt _ 0.5 0.4 ltac:(lra) He) as He'.
    pose proof (np_gt_excludes_lt _ 0.6 0.4 ltac:(lra) Hv) as Hv'.
    unfold energy_clause, dance_clause. rewrite He', Hv', Hv.
    destruct (np_gt (avg_energy f) 0.7); destruct (np_gt (avg_danceability f) 0.65);
      cbn [andb]; split; discriminate.
Qed.

(** ** The statements on the example table, with numpy's generator *)

Lemma example_flag_set :
  snd (add_audio_features MT19937.mt19937_seed MT19937.next_double
                          (MT19937.mt19937_seed 0) example_table) = true.
Proof. vm_compute. reflexivity. Qed.

Lemma averaged_dimensions_stay_in_range_witness :
  (forall g, (0 <= fst (MT19937.next_double g) /\ fst (MT19937.next_double g) < 1)%Q)
  /\ snd (add_audio_features MT19937.mt19937_seed MT19937.next_double
                             (MT19937.mt19937_seed 0) example_table) = true
  /\ exists d e v s a i,
       average_features
         (fst (add_audio_features MT19937.mt19937_seed MT19937.next_double
                                  (MT19937.mt19937_seed 0) example_table))
       = mkAveraged (Fin d) (Fin e) (Fin v) (Fin s) (Fin a) (Fin i)
       /\ (0.2 <= d <= 0.9)%Q /\ (0.1 <= e <= 1.0)%Q /\ (0.1 <= v <= 0.9)%Q
       /\ (0.02 <= s <= 0.2)%Q /\ (0.0 <= a <= 1.0)%Q /\ (0.0 <= i <= 0.8)%Q.
Proof.
  split; [exact mt19937_next_double_unit|]. split; [exact example_flag_set|].
  exact (averaged_dimensions_stay_in_range
           MT19937.state MT19937.mt19937_seed MT19937.next_double
           mt19937_next_double_unit (MT19937.mt19937_seed 0) example_table example_flag_set).
Defined.

Lemma lyric_lover_is_unreachable_witness :
  (forall g, (0 <= fst (MT19937.next_double g) /\ fst (MT19937.next_double g) < 1)%Q)
  /\ fst (analyze_music_profile
            (fst (add_audio_features MT19937.mt19937_seed MT19937.next_double
                                     (MT19937.mt19937_seed 0) example_table)))
     <> LyricLover.
Proof.
  split; [exact mt19937_next_double_unit|].
  exact (lyric_lover_is_unreachable
           MT19937.state MT19937.mt19937_seed MT19937.next_double
           mt19937_next_double_unit (MT19937.mt19937_seed 0) example_table).
Defined.

Lemma displayed_percentages_are_defined_witness :
  (forall g, (0 <= fst (MT19937.next_double g) /\ fst (MT19937.next_double g) < 1)%Q)
  /\ snd (add_audio_features MT19937.mt19937_seed MT19937.next_double
                             (MT19937.mt19937_seed 0) example_table) = true
  /\ Forall (fun x => exists p, display_percentage x = Some p /\ 0 <= p <= 100)
       [avg_danceability
          (average_features
             (fst (add_audio_features MT19937.mt19937_seed MT19937.next_double
                                      (MT19937.mt19937_seed 0) example_table)));
        avg_energy
          (average_features
             (fst (add_audio_features MT19937.mt19937_seed MT19937.next_double
                                      (MT19937.mt19937_seed 0) example_table)));
        avg_valence
          (average_features
             (fst (add_audio_features MT19937.mt19937_seed MT19937.next_double
                                      (MT19937.mt19937_seed 0) example_table)));
        avg_speechiness
          (average_features
             (fst (add_audio_features MT19937.mt19937_seed MT19937.next_double
                                      (MT19937.mt19937_seed 0) example_table)));
        avg_acousticness
          (average_features
             (fst (add_audio_features MT19937.mt19937_seed MT19937.next_double
                                      (MT19937.mt19937_seed 0) example_table)));
        avg_instrumentalness
          (average_features
             (fst (add_audio_features MT19937.mt19937_seed MT19937.next_double
                                      (MT19937.mt19937_seed 0) example_table)))].
Proof.
  split; [exact mt19937_next_double_unit|]. split; [exact example_flag_set|].
  exact (displayed_percentages_are_defined
           MT19937.state MT19937.mt19937_seed MT19937.next_double
           mt19937_next_double_unit (MT19937.mt19937_seed 0) example_table example_flag_set).
Defined.

Lemma ids_sharing_last_four_bytes_share_features_witness :
  track_a <> [] /\ track_same_tail <> []
  /\ (exists pre1 pre2 tail,
        str_encode track_a = Some (pre1 ++ tail)
        /\ str_encode track_same_tail = Some (pre2 ++ tail)
        /\ List.length tail = 4%nat)
  /\ exists f1 f2,
       synthesize MT19937.mt19937_seed MT19937.next_double (PyStr track_a) = Some f1
       /\ synthesize MT19937.mt19937_seed MT19937.next_double (PyStr track_same_tail) = Some f2
       /\ merged_columns f1 = merged_columns f2.
Proof.
  assert (H1 : track_a <> []) by (vm_compute; discriminate).
  assert (H2 : track_same_tail <> []) by (vm_compute; discriminate).
  assert (E1 : str_encode track_a
               = Some (firstn 32 (pystr_of_string "spotify:track:4uLU6hMCjMI75M1A2tKUQC")
                       ++ [75; 85; 81; 67])) by (vm_compute; reflexivity).
  assert (E2 : str_encode track_same_tail
               = Some (firstn 32 (pystr_of_string "spotify:track:0000000000000000zzKUQC")
                       ++ [75; 85; 81; 67])) by (vm_compute; reflexivity).
  split; [exact H1|]. split; [exact H2|]. split.
  - do 3 eexists. split; [exact E1|]. split; [exact E2|reflexivity].
  - exact (ids_sharing_last_four_bytes_share_features
             MT19937.state MT19937.mt19937_seed MT19937.next_double
             track_a track_same_tail _ _ [75; 85; 81; 67] H1 H2 E1 E2 eq_refl).
Defined.

Lemma no_record_no_table_witness :
  Forall (fun f => json_load f = Loaded []) [mkFile "empty.json" (Loaded [])]
  /\ process_files ExportTimestamp.parse [mkFile "empty.json" (Loaded [])]
     = Returned None [no_valid_data]
  /\ process_files ExportTimestamp.parse [] = Returned None [no_valid_data].
Proof.
  assert (H : Forall (fun f => json_load f = Loaded []) [mkFile "empty.json" (Loaded [])])
    by (repeat constructor).
  split; [exact H|]. split.
  - exact (no_record_no_table ExportTimestamp.parse _ H).
  - exact (no_record_no_table ExportTimestamp.parse [] (Forall_nil _)).
Defined.

Lemma table_rows_are_the_records_witness :
  Forall loads_records [example_file]
  /\ flat_map file_records [example_file] <> []
  /\ Forall (fun r => ExportTimestamp.parse (r_ts r) <> None)
            (flat_map file_records [example_file])
  /\ exists df,
       process_files ExportTimestamp.parse [example_file] = Returned (Some df) []
       /\ Forall2 (fun (e : play_event) (r : raw_record) =>
                     ExportTimestamp.parse (r_ts r) = Some (ts e)
                     /\ ms_played e = r_ms_played r
                     /\ minutes_played e = (inject_Z (r_ms_played r) / inject_Z 60000)%Q
                     /\ spotify_track_uri e = r_spotify_track_uri r)
                  df (flat_map file_records [example_file]).
Proof.
  assert (H1 : Forall loads_records [example_file])
    by (repeat constructor; eexists; reflexivity).
  assert (H2 : flat_map file_records [example_file] <> []) by (vm_compute; discriminate).
  assert (H3 : Forall (fun r => ExportTimestamp.parse (r_ts r) <> None)
                      (flat_map file_records [example_file]))
    by (repeat constructor; vm_compute; discriminate).
  split; [exact H1|]. split; [exact H2|]. split; [exact H3|].
  exact (table_rows_are_the_records ExportTimestamp.parse [example_file] H1 H2 H3).
Defined.

(** ** Rankings *)

Lemma Qsum_perm (l l' : list Q) : Permutation l l' -> (Qsum l == Qsum l')%Q.
Proof.
  induction 1; simpl; try reflexivity.
  - now rewrite IHPermutation.
  - ring.
  - now rewrite IHPermutation1.
Qed.

Lemma Qsum_cons (x : Q) (l : list Q) : Qsum (x :: l) = (x + Qsum l)%Q.
Proof. reflexivity. Qed.

Section GroupKeysProperties.

Variable K : Type.
Variable key_eqb : K -> K -> bool.
Variable key_leb : K -> K -> bool.
Hypothesis key_eqb_eq : forall a b, key_eqb a b = true <-> a = b.

Lemma existsb_key_eqb (x : K) (l : list K) : existsb (key_eqb x) l = true <-> In x l.
Proof.
  rewrite existsb_exists. split.
  - intros [y [Hin Heq]]. apply key_eqb_eq in Heq. now subst.
  - intros Hin. exists x. split; [exact Hin|now apply key_eqb_eq].
Qed.

Lemma distinct_from_in (seen l : list K) (x : K) :
  In x (distinct_from key_eqb seen l) <-> In x l /\ ~ In x seen.
Proof.
  revert seen; induction l as [|y l IH]; intros seen; simpl; [tauto|].
  destruct (existsb (key_eqb y) seen) eqn:E.
  - apply existsb_key_eqb in E. rewrite IH. intuition congruence.
  - assert (Hy : ~ In y seen) by (rewrite <- existsb_key_eqb; congruence).
    simpl. rewrite IH. simpl.
    destruct (key_eqb y x) eqn:Eyx.
    + apply key_eqb_eq in Eyx. subst x. tauto.
    + assert (y <> x) by (intros Heq; apply key_eqb_eq in Heq; congruence). tauto.
Qed.

Lemma distinct_from_nodup (seen l : list K) : NoDup (distinct_from key_eqb seen l).
Proof.
  revert seen; induction l as [|y l IH]; intros seen; simpl; [constructor|].
  destruct (existsb (key_eqb y) seen); [apply IH|].
  constructor; [|apply IH]. rewrite distinct_from_in. simpl. tauto.
Qed.

Lemma insert_key_perm (k : K) (l : list K) : Permutation (k :: l) (insert_key key_leb k l).
Proof.
  induction l as [|x l IH]; simpl; [reflexivity|].
  destruct (key_leb k x); [reflexivity|].
  rewrite perm_swap. now constructor.
Qed.

Lemma sort_keys_perm (l : list K) : Permutation l (sort_keys key_leb l).
Proof.
  induction l as [|x l IH]; simpl; [reflexivity|].
  rewrite <- insert_key_perm. now constructor.
Qed.

Lemma present_in {A : Type} (col : list (option A)) (a : A) :
  In a (present col) <-> In (Some a) col.
Proof.
  unfold present. rewrite in_flat_map. split.
  - intros [[b|] [Hin Hb]]; [|destruct Hb]. destruct Hb as [->|[]]. exact Hin.
  - intros Hin. exists (Some a). split; [exact Hin|now left].
Qed.

Lemma group_keys_in (col : list (option K)) (k : K) :
  In k (group_keys key_eqb key_leb col) <-> In (Some k) col.
Proof.
  unfold group_keys. rewrite <- present_in. split.
  - intros H. apply (Permutation_in _ (Permutation_sym (sort_keys_perm _))) in H.
    unfold distinct in H. apply distinct_from_in in H. tauto.
  - intros H. apply (Permutation_in _ (sort_keys_perm _)).
    unfold distinct. apply distinct_from_in. simpl. tauto.
Qed.

Lemma group_keys_nodup (col : list (option K)) : NoDup (group_keys key_eqb key_leb col).
Proof.
  unfold group_keys. eapply Permutation_NoDup; [apply sort_keys_perm|].
  apply distinct_from_nodup.
Qed.

Lemma Qsum_key_indicator (k0 : K) (m : Q) (ks : list K) :
  NoDup ks -> In k0 ks ->
  (Qsum (map (fun k => if key_eqb k k0 then m else 0) ks) == m)%Q.
Proof.
  assert (Hz : forall l, ~ In k0 l ->
            (Qsum (map (fun k => if key_eqb k k0 then m else 0) l) == 0)%Q).
  { induction l as [|k l IH]; intros Hn; [reflexivity|].
    cbn [map]. rewrite Qsum_cons.
    destruct (key_eqb k k0) eqn:Ek.
    - apply key_eqb_eq in Ek. subst k. exfalso. apply Hn. now left.
    - rewrite IH; [ring|]. intros H. apply Hn. now right. }
  induction 1 as [|k ks Hn Hnd IH]; intros Hin; [destruct Hin|].
  cbn [map]. rewrite Qsum_cons. destruct Hin as [->|Hin].
  - assert (E : key_eqb k0 k0 = true) by now apply key_eqb_eq.
    rewrite E, (Hz ks Hn). ring.
  - destruct (key_eqb k k0) eqn:Ek.
    + apply key_eqb_eq in Ek. subst k. contradiction.
    + rewrite (IH Hin). ring.
Qed.

(** Summing a quantity group by group counts every row that has a key once. *)
Lemma groups_partition {R : Type} (key_of : R -> option K) (m : R -> Q)
  (df : list R) (ks : list K) :
  NoDup ks -> (forall r k, In r df -> key_of r = Some k -> In k ks) ->
  (Qsum (map (fun k => Qsum (map m (filter (fun r => match key_of r with
                                                   | Some k' => key_eqb k k'
                                                   | None => false
                                                   end) df))) ks)
   == Qsum (map m (filter (fun r => match key_of r with Some _ => true | None => false end)
                          df)))%Q.
Proof.
  intros Hnd. induction df as [|r df IH]; intros Hall.
  - cbn [filter map]. clear. induction ks as [|k ks IH]; [reflexivity|].
    cbn [map]. rewrite Qsum_cons, IH. unfold Qsum. cbn [fold_right]. ring.
  - assert (IH' := IH (fun r' k Hr => Hall r' k (or_intror Hr))). clear IH.
    cbn [filter]. destruct (key_of r) as [k0|] eqn:Ek.
    + cbn [map]. rewrite Qsum_cons.
      rewrite <- IH', <- (Qsum_key_indicator k0 (m r) ks Hnd (Hall r k0 (or_introl eq_refl) Ek)).
      rewrite <- Qsum_map_plus. apply Qsum_map_ext. intros k _.
      destruct (key_eqb k k0); [cbn [map]; rewrite Qsum_cons|]; ring.
    + exact IH'.
Qed.

End GroupKeysProperties.

Section SortedHead.

Variable A : Type.
Variable score : A -> Q.
Variable sort_values : list A -> list A.
Hypothesis sort_values_perm : forall l, Permutation l (sort_values l).
Hypothesis sort_values_sorted :
  forall l, StronglySorted (fun a b => (score b <= score a)%Q) (sort_values l).

Lemma sorted_firstn {B : Type} (R : B -> B -> Prop) (n : nat) (l : list B) :
  StronglySorted R l -> StronglySorted R (firstn n l).
Proof.
  intros H; revert n; induction H as [|x l Hs IH Hall]; intros [|n]; cbn [firstn];
    try constructor; auto.
  now apply Forall_firstn.
Qed.

Lemma sorted_app_cross {B : Type} (R : B -> B -> Prop) (l1 l2 : list B) :
  StronglySorted R (l1 ++ l2) -> forall x y, In x l1 -> In y l2 -> R x y.
Proof.
  induction l1 as [|a l1 IH]; cbn [app]; intros H x y Hx Hy; [destruct Hx|].
  inversion H as [|? ? Hs Hall]; subst. destruct Hx as [<-|Hx].
  - rewrite Forall_forall in Hall. apply Hall. apply in_or_app. now right.
  - now apply IH.
Qed.

Lemma head_in (l : list A) (n : nat) (x : A) : In x (firstn n (sort_values l)) -> In x l.
Proof.
  intros H. apply (Permutation_in _ (Permutation_sym (sort_values_perm l))).
  rewrite <- (firstn_skipn n (sort_values l)). apply in_or_app. now left.
Qed.

Lemma head_sorted (l : list A) (n : nat) :
  StronglySorted (fun a b => (score b <= score a)%Q) (firstn n (sort_values l)).
Proof. apply sorted_firstn, sort_values_sorted. Qed.

Lemma head_dominates (l : list A) (n : nat) (x y : A) :
  In x l -> ~ In x (firstn n (sort_values l)) -> In y (firstn n (sort_values l)) ->
  (score x <= score y)%Q.
Proof.
  intros Hx Hnot Hy.
  apply (Permutation_in _ (sort_values_perm l)) in Hx.
  rewrite <- (firstn_skipn n (sort_values l)) in Hx.
  apply in_app_or in Hx as [Hx|Hx]; [contradiction|].
  pose proof (sort_values_sorted l) as Hs.
  rewrite <- (firstn_skipn n (sort_values l)) in Hs.
  exact (sorted_app_cross _ _ _ Hs y x Hy Hx).
Qed.

Lemma head_length (l : list A) (n : nat) :
  List.length (firstn n (sort_values l)) = Nat.min n (List.length l).
Proof.
  rewrite length_firstn, <- (Permutation_length (sort_values_perm l)). reflexivity.
Qed.

Lemma head_all (l : list A) (n : nat) :
  (List.length l <= n)%nat -> Permutation l (firstn n (sort_values l)).
Proof.
  intros H. rewrite firstn_all2; [apply sort_values_perm|].
  now rewrite <- (Permutation_length (sort_values_perm l)).
Qed.

Lemma head_nodup {B : Type} (f : A -> B) (l : list A) (n : nat) :
  NoDup (map f l) -> NoDup (map f (firstn n (sort_values l))).
Proof.
  intros H.
  assert (Hp : NoDup (map f (sort_values l)))
    by (eapply Permutation_NoDup; [apply Permutation_map, sort_values_perm|exact H]).
  rewrite <- (firstn_skipn n (sort_values l)), map_app in Hp.
  now apply NoDup_app_remove_r in Hp.
Qed.

End SortedHead.

Lemma song_key_eqb_eq (a b : string * string * pyval) : song_key_eqb a b = true <-> a = b.
Proof.
  destruct a as [[t1 a1] u1], b as [[t2 a2] u2]. unfold song_key_eqb. cbn [fst snd].
  rewrite !andb_true_iff, !String.eqb_eq, pyval_eqb_eq. split.
  - intros [[-> ->] ->]. reflexivity.
  - intros [= -> -> ->]. tauto.
Qed.

Lemma artist_groups_names (df : list listening_row) :
  map artist_name (artist_groups df)
  = group_keys String.eqb String.leb (map master_metadata_album_artist_name df).
Proof.
  unfold artist_groups. rewrite map_map. cbn [artist_group artist_name]. apply map_id.
Qed.

Lemma song_groups_keys (df : list listening_row) :
  map song_key_of (song_groups df) = group_keys song_key_eqb song_key_leb (map song_key df).
Proof.
  unfold song_groups. rewrite map_map. cbn [song_group song_key_of]. apply map_id.
Qed.

Lemma in_artist_groups (df : list listening_row) (row : artist_stats) :
  In row (artist_groups df)
  <-> row = artist_group df (artist_name row)
      /\ exists r, In r df /\ master_metadata_album_artist_name r = Some (artist_name row).
Proof.
  unfold artist_groups. rewrite in_map_iff. split.
  - intros [a [<- Ha]]. cbn [artist_group artist_name]. split; [reflexivity|].
    apply (group_keys_in _ _ _ String.eqb_eq) in Ha.
    apply in_map_iff in Ha as [r [Hr Hin]]. eauto.
  - intros [Hrow Hex]. exists (artist_name row). split; [now symmetry|].
    apply (group_keys_in _ _ _ String.eqb_eq). apply in_map_iff.
    destruct Hex as [r [Hr Ha]]. exists r. tauto.
Qed.

Lemma in_song_groups (df : list listening_row) (row : song_stats) :
  In row (song_groups df)
  <-> row = song_group df (song_key_of row)
      /\ exists r, In r df /\ song_key r = Some (song_key_of row).
Proof.
  unfold song_groups. rewrite in_map_iff. split.
  - intros [k [<- Hk]]. cbn [song_group song_key_of]. split; [reflexivity|].
    apply (group_keys_in _ _ _ song_key_eqb_eq) in Hk.
    apply in_map_iff in Hk as [r [Hr Hin]]. eauto.
  - intros [Hrow Hex]. exists (song_key_of row). split; [now symmetry|].
    apply (group_keys_in _ _ _ song_key_eqb_eq). apply in_map_iff.
    destruct Hex as [r [Hr Hk]]. exists r. tauto.
Qed.

Section RankingProperties.

Variable sort_artists : list artist_stats -> list artist_stats.
Hypothesis sort_artists_perm : forall l, Permutation l (sort_artists l).
Hypothesis sort_artists_sorted :
  forall l, StronglySorted (fun a b => (artist_minutes b <= artist_minutes a)%Q)
                           (sort_artists l).

Variable sort_songs : list song_stats -> list song_stats.
Hypothesis sort_songs_perm : forall l, Permutation l (sort_songs l).
Hypothesis sort_songs_sorted :
  forall l, StronglySorted (fun a b => (song_minutes b <= song_minutes a)%Q) (sort_songs l).

(** X20.  [get_top_artists(df, n)] returns [n] rows, or one per artist when there
    are fewer; no artist twice; each row holds an artist named by some row
    of the table, with the sum of the minutes of that artist's rows and the
    number of distinct track names among them; the rows come by decreasing
    minutes; and no artist left out has more minutes than a row kept. *)
Theorem top_artists_are_the_largest_groups (df : list listening_row) (n : nat) :
  List.length (get_top_artists sort_artists df n)
  = Nat.min n (List.length (artist_groups df))
  /\ NoDup (map artist_name (get_top_artists sort_artists df n))
  /\ Forall (fun row =>
               row = artist_group df (artist_name row)
               /\ exists r, In r df
                            /\ master_metadata_album_artist_name r = Some (artist_name row))
            (get_top_artists sort_artists df n)
  /\ StronglySorted (fun a b => (artist_minutes b <= artist_minutes a)%Q)
                    (get_top_artists sort_artists df n)
  /\ (forall r a, In r df -> master_metadata_album_artist_name r = Some a ->
                  ~ In a (map artist_name (get_top_artists sort_artists df n)) ->
                  Forall (fun row => (artist_minutes (artist_group df a)
                                      <= artist_minutes row)%Q)
                         (get_top_artists sort_artists df n)).
Proof.
  unfold get_top_artists. split; [|split; [|split; [|split]]].
  - apply head_length, sort_artists_perm.
  - apply head_nodup; [apply sort_artists_perm|].
    rewrite artist_groups_names. apply group_keys_nodup, String.eqb_eq.
  - apply Forall_forall. intros row Hrow. apply in_artist_groups.
    eapply head_in; [apply sort_artists_perm|exact Hrow].
  - apply head_sorted, sort_artists_sorted.
  - intros r a Hr Ha Hnot. apply Forall_forall. intros row Hrow.
    apply (head_dominates _ artist_minutes sort_artists sort_artists_perm sort_artists_sorted
                          (artist_groups df) n (artist_group df a) row); [| |exact Hrow].
    + apply in_artist_groups. cbn [artist_group artist_name]. split; [reflexivity|eauto].
    + intros Hin. apply Hnot. apply in_map_iff. exists (artist_group df a).
      split; [reflexivity|exact Hin].
Qed.

(** X21.  When [n] covers every artist, the minutes of the ranking add up to the
    minutes of the rows that name an artist: rows with a null artist
    (podcast episodes) are in no group. *)
Theorem top_artists_conserve_named_minutes (df : list listening_row) (n : nat) :
  (List.length (artist_groups df) <= n)%nat ->
  (Qsum (map artist_minutes (get_top_artists sort_artists df n))
   == Qsum (map row_minutes
                (filter (fun r => match master_metadata_album_artist_name r with
                                  | Some _ => true
                                  | None => false
                                  end) df)))%Q.
Proof.
  intros Hn. unfold get_top_artists.
  rewrite <- (Qsum_perm _ _ (Permutation_map artist_minutes
                               (head_all _ sort_artists sort_artists_perm _ n Hn))).
  unfold artist_groups. rewrite map_map. cbn [artist_group artist_minutes].
  apply (groups_partition _ String.eqb String.eqb_eq master_metadata_album_artist_name);
    [apply group_keys_nodup, String.eqb_eq|].
  intros r k Hr Hk. apply (group_keys_in _ _ _ String.eqb_eq). rewrite <- Hk. now apply in_map.
Qed.

(** X22.  The header of the "Top Artists" column takes row 0 of
    [get_top_artists(df, 1)]: there is none, and [iloc[0]] raises, exactly
    when no row of the table names an artist; otherwise it is an artist no
    other artist has more minutes than. *)
Theorem top_artist_exists_iff_some_artist (df : list listening_row) :
  (top_artist sort_artists df = None
   <-> forall r, In r df -> master_metadata_album_artist_name r = None)
  /\ forall top, top_artist sort_artists df = Some top ->
       top = artist_group df (artist_name top)
       /\ forall r a, In r df -> master_metadata_album_artist_name r = Some a ->
                      (artist_minutes (artist_group df a) <= artist_minutes top)%Q.
Proof.
  unfold top_artist, get_top_artists.
  pose proof (sort_artists_perm (artist_groups df)) as Hp.
  pose proof (sort_artists_sorted (artist_groups df)) as Hs.
  destruct (sort_artists (artist_groups df)) as [|top rest] eqn:E; cbn [firstn].
  - apply Permutation_sym, Permutation_nil in Hp. split; [|discriminate].
    split; [|reflexivity]. intros _ r Hr.
    destruct (master_metadata_album_artist_name r) as [a|] eqn:Ea; [|reflexivity].
    assert (Hin : In (artist_group df a) (artist_groups df))
      by (apply in_artist_groups; cbn [artist_group artist_name]; eauto).
    rewrite Hp in Hin. destruct Hin.
  - split.
    + split; [discriminate|]. intros Hnone. exfalso.
      assert (Hin : In top (artist_groups df))
        by (apply (Permutation_in _ (Permutation_sym Hp)); now left).
      apply in_artist_groups in Hin as [_ [r [Hr Ha]]].
      rewrite (Hnone r Hr) in Ha. discriminate.
    + intros top' [= <-].
      assert (Hin : In top (artist_groups df))
        by (apply (Permutation_in _ (Permutation_sym Hp)); now left).
      split; [now apply in_artist_groups|].
      intros r a Hr Ha.
      assert (Hg : In (artist_group df a) (top :: rest)).
      { apply (Permutation_in _ Hp). apply in_artist_groups.
        cbn [artist_group artist_name]. eauto. }
      inversion Hs as [|? ? _ Hall]; subst. rewrite Forall_forall in Hall.
      destruct Hg as [<-|Hg]; [apply Qle_refl|now apply Hall].
Qed.

(** X23.  [get_top_songs(df, n)] groups by the triple of track name, artist name
    and track id, so two songs that share a name but not the artist stay
    two rows; rows of the table with a null in one of the three are in no
    group; each row of the ranking holds the minutes and the number of
    plays of its triple, and the rows come by decreasing minutes, [n] of
    them or one per triple when there are fewer. *)
Theorem top_songs_are_the_largest_groups (df : list listening_row) (n : nat) :
  List.length (get_top_songs sort_songs df n) = Nat.min n (List.length (song_groups df))
  /\ NoDup (map song_key_of (get_top_songs sort_songs df n))
  /\ Forall (fun row =>
               row = song_group df (song_key_of row)
               /\ (1 <= song_plays row)%nat
               /\ exists r, In r df /\ song_key r = Some (song_key_of row))
            (get_top_songs sort_songs df n)
  /\ StronglySorted (fun a b => (song_minutes b <= song_minutes a)%Q)
                    (get_top_songs sort_songs df n)
  /\ (forall r k, In r df -> song_key r = Some k ->
                  ~ In k (map song_key_of (get_top_songs sort_songs df n)) ->
                  Forall (fun row => (song_minutes (song_group df k) <= song_minutes row)%Q)
                         (get_top_songs sort_songs df n)).
Proof.
  unfold get_top_songs. split; [|split; [|split; [|split]]].
  - apply head_length, sort_songs_perm.
  - apply head_nodup; [apply sort_songs_perm|].
    rewrite song_groups_keys. apply group_keys_nodup, song_key_eqb_eq.
  - apply Forall_forall. intros row Hrow.
    assert (Hin : In row (song_groups df))
      by (eapply head_in; [apply sort_songs_perm|exact Hrow]).
    apply in_song_groups in Hin as [Hrow' [r [Hr Hk]]].
    split; [exact Hrow'|]. split; [|eauto].
    rewrite Hrow'. cbn [song_group song_plays].
    assert (Hf : In r (filter (by_song (song_key_of row)) df)).
    { apply filter_In. split; [exact Hr|]. unfold by_song. rewrite Hk.
      now apply song_key_eqb_eq. }
    destruct (filter (by_song (song_key_of row)) df); [destruct Hf|cbn [List.length]; lia].
  - apply head_sorted, sort_songs_sorted.
  - intros r k Hr Hk Hnot. apply Forall_forall. intros row Hrow.
    apply (head_dominates _ song_minutes sort_songs sort_songs_perm sort_songs_sorted
                          (song_groups df) n (song_group df k) row); [| |exact Hrow].
    + apply in_song_groups. cbn [song_group song_key_of]. split; [reflexivity|eauto].
    + intros Hin. apply Hnot. apply in_map_iff. exists (song_group df k).
      split; [reflexivity|exact Hin].
Qed.

End RankingProperties.

(** ** An instance of the sort, and the rankings of a small table *)

Lemma insert_desc_perm {A : Type} (score : A -> Q) (x : A) (l : list A) :
  Permutation (x :: l) (insert_desc score x l).
Proof.
  induction l as [|y l IH]; cbn [insert_desc]; [reflexivity|].
  destruct (Qle_bool (score y) (score x)); [reflexivity|].
  rewrite perm_swap. now constructor.
Qed.

Lemma sort_desc_perm {A : Type} (score : A -> Q) (l : list A) :
  Permutation l (sort_desc score l).
Proof.
  induction l as [|x l IH]; cbn [sort_desc fold_right]; [reflexivity|].
  rewrite <- insert_desc_perm. now constructor.
Qed.

Lemma insert_desc_sorted {A : Type} (score : A -> Q) (x : A) (l : list A) :
  StronglySorted (fun a b => (score b <= score a)%Q) l ->
  StronglySorted (fun a b => (score b <= score a)%Q) (insert_desc score x l).
Proof.
  induction l as [|y l IH]; cbn [insert_desc]; intros Hs; [repeat constructor|].
  inversion Hs as [|? ? Hs' Hall]; subst.
  destruct (Qle_bool (score y) (score x)) eqn:E.
  - apply Qle_bool_iff in E. constructor; [exact Hs|].
    constructor; [exact E|]. eapply Forall_impl; [|exact Hall].
    intros z Hz. cbn beta in *. lra.
  - assert (Hlt : (score x <= score y)%Q).
    { destruct (Qlt_le_dec (score x) (score y)) as [H|H]; [lra|].
      apply Qle_bool_iff in H. congruence. }
    constructor; [now apply IH|].
    apply Forall_forall. intros z Hz.
    apply (Permutation_in _ (Permutation_sym (insert_desc_perm score x l))) in Hz.
    destruct Hz as [<-|Hz]; [exact Hlt|].
    rewrite Forall_forall in Hall. now apply Hall.
Qed.

Lemma sort_desc_sorted {A : Type} (score : A -> Q) (l : list A) :
  StronglySorted (fun a b => (score b <= score a)%Q) (sort_desc score l).
Proof.
  induction l as [|x l IH]; cbn [sort_desc fold_right]; [constructor|].
  now apply insert_desc_sorted.
Qed.

Lemma top_artists_are_the_largest_groups_witness :
  (forall l, Permutation l (sort_desc artist_minutes l))
  /\ (forall l, StronglySorted (fun a b => (artist_minutes b <= artist_minutes a)%Q)
                               (sort_desc artist_minutes l))
  /\ List.length (get_top_artists (sort_desc artist_minutes) ranking_rows 1)
     = Nat.min 1 (List.length (artist_groups ranking_rows))
  /\ StronglySorted (fun a b => (artist_minutes b <= artist_minutes a)%Q)
                    (get_top_artists (sort_desc artist_minutes) ranking_rows 1).
Proof.
  split; [exact (sort_desc_perm artist_minutes)|].
  split; [exact (sort_desc_sorted artist_minutes)|].
  destruct (top_artists_are_the_largest_groups
              (sort_desc artist_minutes) (sort_desc_perm artist_minutes)
              (sort_desc_sorted artist_minutes) ranking_rows 1) as [H1 [_ [_ [H4 _]]]].
  split; [exact H1|exact H4].
Defined.

Lemma top_artists_conserve_named_minutes_witness :
  (forall l, Permutation l (sort_desc artist_minutes l))
  /\ (List.length (artist_groups ranking_rows) <= 10)%nat
  /\ (Qsum (map artist_minutes (get_top_artists (sort_desc artist_minutes) ranking_rows 10))
      == Qsum (map row_minutes
                   (filter (fun r => match master_metadata_album_artist_name r with
                                     | Some _ => true
                                     | None => false
                                     end) ranking_rows)))%Q.
Proof.
  assert (H : (List.length (artist_groups ranking_rows) <= 10)%nat) by (vm_compute; lia).
  split; [exact (sort_desc_perm artist_minutes)|]. split; [exact H|].
  exact (top_artists_conserve_named_minutes
           (sort_desc artist_minutes) (sort_desc_perm artist_minutes) ranking_rows 10 H).
Defined.

Lemma top_artist_exists_iff_some_artist_witness :
  (forall l, Permutation l (sort_desc artist_minutes l))
  /\ (forall l, StronglySorted (fun a b => (artist_minutes b <= artist_minutes a)%Q)
                               (sort_desc artist_minutes l))
  /\ (top_artist (sort_desc artist_minutes) ranking_rows = None
      <-> forall r, In r ranking_rows -> master_metadata_album_artist_name r = None).
Proof.
  split; [exact (sort_desc_perm artist_minutes)|].
  split; [exact (sort_desc_sorted artist_minutes)|].
  exact (proj1 (top_artist_exists_iff_some_artist
                  (sort_desc artist_minutes) (sort_desc_perm artist_minutes)
                  (sort_desc_sorted artist_minutes) ranking_rows)).
Defined.

Lemma top_songs_are_the_largest_groups_witness :
  (forall l, Permutation l (sort_desc song_minutes l))
  /\ (forall l, StronglySorted (fun a b => (song_minutes b <= song_minutes a)%Q)
                               (sort_desc song_minutes l))
  /\ List.length (get_top_songs (sort_desc song_minutes) ranking_rows 10)
     = Nat.min 10 (List.length (song_groups ranking_rows))
  /\ NoDup (map song_key_of (get_top_songs (sort_desc song_minutes) ranking_rows 10)).
Proof.
  split; [exact (sort_desc_perm song_minutes)|].
  split; [exact (sort_desc_sorted song_minutes)|].
  destruct (top_songs_are_the_largest_groups
              (sort_desc song_minutes) (sort_desc_perm song_minutes)
              (sort_desc_sorted song_minutes) ranking_rows 10) as [H1 [H2 _]].
  split; [exact H1|exact H2].
Defined.

(** The table of [ranking_rows]: artist B leads with 33.3 minutes, artist A
    follows with 25 over two plays of one track; the two songs called
    "Track X" are two rows; the podcast row is in neither ranking, and its
    50 minutes are missing from the artists' total. *)
Example rankings_of_a_small_table :
  map (fun a => (artist_name a, Qred (artist_minutes a), artist_tracks a))
      (get_top_artists (sort_desc artist_minutes) ranking_rows 10)
  = [("Artist B"%string, (100 # 3)%Q, 1%nat); ("Artist A"%string, 25%Q, 1%nat)]
  /\ map (fun s => (fst (fst (song_key_of s)), snd (fst (song_key_of s)),
                    Qred (song_minutes s), song_plays s))
         (get_top_songs (sort_desc song_minutes) ranking_rows 10)
     = [("Track X"%string, "Artist B"%string, (100 # 3)%Q, 1%nat);
        ("Track X"%string, "Artist A"%string, 25%Q, 2%nat)]
  /\ (Qsum (map row_minutes ranking_rows) == 325 / 3)%Q.
Proof. repeat split; vm_compute; reflexivity. Qed.
